(** * The comment panel of the community detail view

    A shallow embedding of [src/components/CommunityDetailView/CommunityDetailComment.vue]
    (the script part): the cached comment list in [localStorage], the
    submit and delete handlers, the watcher on [props.postId] and the
    relative-time timer.

    Layout
    - [Js]: the JavaScript values that can reach the component (what
      [JSON.parse] can build), strings, [trim], property reads, spread.
    - [Json]: [JSON.stringify] and [JSON.parse] on those values.
    - [CommentPanel]: the component itself, function by function.  An
      async handler is cut at its [await]: a [_begin] part that runs up
      to the request and a [_resume] part that runs when the request has
      ended, on the state of that moment.
    - [Template]: the list part of the template.
    - [JsonFacts]: reading back what [JSON.stringify] wrote.
    - [CommentPanelFacts]: the properties of the component.
    - [CommentPanelMore]: what holds through sequences of events.

    Strings are [string]s holding the UTF-8 bytes of the text; every
    character the platform functions look at (JSON punctuation, escapes,
    ASCII white space) is a single byte, and the other bytes are passed
    through untouched. *)

From Stdlib Require Import ZArith String Ascii List Bool Lia.
From stdpp Require Import base option list strings pretty gmap.


(** ** JavaScript values *)

Module Js.

(** The values [JSON.parse] can return.  [Num] holds an integer (a double
    is exact up to 2^53; fractions are not modelled).  [Obj] lists the own
    enumerable properties in enumeration order. *)
Unset Elimination Schemes.
Inductive value : Type :=
| Null
| Bool (b : bool)
| Num (n : Z)
| Str (s : string)
| Arr (elems : list value)
| Obj (props : list (string * value)).
Set Elimination Schemes.

(** Induction through the lists nested in [Arr] and [Obj]. *)
Fixpoint value_ind (P : value → Prop)
    (HNull : P Null) (HBool : ∀ b, P (Bool b)) (HNum : ∀ n, P (Num n))
    (HStr : ∀ s, P (Str s))
    (HArr : ∀ l, Forall P l → P (Arr l))
    (HObj : ∀ ps, Forall (λ p, P p.2) ps → P (Obj ps))
    (v : value) {struct v} : P v :=
  let go := value_ind P HNull HBool HNum HStr HArr HObj in
  match v with
  | Null => HNull
  | Bool b => HBool b
  | Num n => HNum n
  | Str s => HStr s
  | Arr l =>
      HArr l ((fix all (l : list value) : Forall P l :=
                 match l with
                 | [] => Forall_nil_2 P
                 | x :: l' => Forall_cons_2 P x l' (go x) (all l')
                 end) l)
  | Obj ps =>
      HObj ps ((fix all (ps : list (string * value)) : Forall (λ p, P p.2) ps :=
                  match ps with
                  | [] => Forall_nil_2 _
                  | p :: ps' => Forall_cons_2 (λ p, P p.2) p ps' (go p.2) (all ps')
                  end) ps)
  end.

(** What a statement can complete with: a value, or a thrown exception. *)
Inductive exn : Type := TypeError | SyntaxError | RequestError.

Inductive completion (A : Type) : Type :=
| Normal (a : A)
| Throw (e : exn).
Arguments Normal {A} a.
Arguments Throw {A} e.

#[global] Instance completion_ret : MRet completion := λ A a, Normal a.
#[global] Instance completion_bind : MBind completion := λ A B k c,
  match c with
  | Normal a => k a
  | Throw e => Throw e
  end.

(** *** Strings *)

(** [if (s)] on a string: only the empty string is falsy. *)
Definition truthy (s : string) : bool :=
  match s with
  | EmptyString => false
  | String _ _ => true
  end.

Definition code (c : ascii) : N := N_of_ascii c.

(** ECMAScript WhiteSpace and LineTerminator, seen through UTF-8.
    One byte: TAB LF VT FF CR SP. *)
Definition ws1 (a : ascii) : bool :=
  ((9 <=? code a) && (code a <=? 13) || (code a =? 32))%N.

(** Two bytes: U+00A0 (C2 A0). *)
Definition ws2 (a b : ascii) : bool :=
  ((code a =? 194) && (code b =? 160))%N.

(** Three bytes: U+1680 (E1 9A 80), U+2000..U+200A (E2 80 80..8A),
    U+2028, U+2029 (E2 80 A8, A9), U+202F (E2 80 AF), U+205F (E2 81 9F),
    U+3000 (E3 80 80), U+FEFF (EF BB BF). *)
Definition ws3 (a b c : ascii) : bool :=
  ((code a =? 225) && (code b =? 154) && (code c =? 128)
   || (code a =? 226) && (code b =? 128)
      && ((128 <=? code c) && (code c <=? 138)
          || (code c =? 168) || (code c =? 169) || (code c =? 175))
   || (code a =? 226) && (code b =? 129) && (code c =? 159)
   || (code a =? 227) && (code b =? 128) && (code c =? 128)
   || (code a =? 239) && (code b =? 187) && (code c =? 191))%N.

Fixpoint trimStart (s : string) : string :=
  match s with
  | EmptyString => s
  | String a r1 =>
      if ws1 a then trimStart r1
      else match r1 with
           | EmptyString => s
           | String b r2 =>
               if ws2 a b then trimStart r2
               else match r2 with
                    | EmptyString => s
                    | String c r3 => if ws3 a b c then trimStart r3 else s
                    end
           end
  end.

(** A string made of white space only. *)
Definition blank (s : string) : bool := negb (truthy (trimStart s)).

Fixpoint trimEnd (s : string) : string :=
  match s with
  | EmptyString => EmptyString
  | String a r => if blank s then EmptyString else String a (trimEnd r)
  end.

(** [String.prototype.trim]. *)
Definition trim (s : string) : string := trimEnd (trimStart s).

(** *** Properties *)

Fixpoint lookup_prop (k : string) (ps : list (string * value)) : option value :=
  match ps with
  | [] => None
  | (k', v) :: ps' => if String.eqb k' k then Some v else lookup_prop k ps'
  end.

(** [v.k] for a property name [k] that no prototype defines ([id],
    [datetime], ...): [None] is [undefined]; reading from [null] throws. *)
Definition get (v : value) (k : string) : completion (option value) :=
  match v with
  | Null => Throw TypeError
  | Obj ps => Normal (lookup_prop k ps)
  | _ => Normal None
  end.

(** [x !== s] for a string [s]: strict, so only the same string is equal. *)
Definition strict_ne (x : option value) (s : string) : bool :=
  match x with
  | Some (Str s') => negb (String.eqb s' s)
  | _ => true
  end.

Fixpoint all_digits (s : string) : bool :=
  match s with
  | EmptyString => true
  | String c r => (48 <=? code c)%N && (code c <=? 57)%N && all_digits r
  end.

Fixpoint digits_value (acc : N) (s : string) : N :=
  match s with
  | EmptyString => acc
  | String c r => digits_value (10 * acc + (code c - 48))%N r
  end.

(** An array index: the canonical decimal form of an integer below
    2^32 - 1.  Such keys are enumerated first, in ascending order. *)
Definition array_index (k : string) : option N :=
  if truthy k && all_digits k then
    let n := digits_value 0 k in
    if String.eqb (pretty n) k && (n <? 4294967295)%N then Some n else None
  else None.

Definition key_before (k k' : string) : bool :=
  match array_index k, array_index k' with
  | Some n, Some n' => (n <? n')%N
  | Some _, None => true
  | None, _ => false
  end.

Fixpoint replace_prop (k : string) (v : value) (ps : list (string * value))
  : list (string * value) :=
  match ps with
  | [] => []
  | (k', v') :: ps' =>
      if String.eqb k' k then (k, v) :: ps' else (k', v') :: replace_prop k v ps'
  end.

Fixpoint insert_prop (k : string) (v : value) (ps : list (string * value))
  : list (string * value) :=
  match ps with
  | [] => [(k, v)]
  | (k', v') :: ps' =>
      if key_before k k' then (k, v) :: ps else (k', v') :: insert_prop k v ps'
  end.

(** CreateDataProperty: an existing key keeps its place and takes the new
    value, a new key goes to its place in the enumeration order. *)
Definition define_prop (k : string) (v : value) (ps : list (string * value))
  : list (string * value) :=
  match lookup_prop k ps with
  | Some _ => replace_prop k v ps
  | None => insert_prop k v ps
  end.

Fixpoint indexed (i : N) (l : list value) : list (string * value) :=
  match l with
  | [] => []
  | x :: l' => (pretty i, x) :: indexed (N.succ i) l'
  end.

Fixpoint chars (s : string) : list value :=
  match s with
  | EmptyString => []
  | String c r => Str (String c EmptyString) :: chars r
  end.

(** The own enumerable properties an object spread [{...v}] copies: the
    properties of an object, the elements of an array under their
    indices, the characters of a string (one per byte: exact for ASCII
    text), nothing for [null], booleans and numbers. *)
Definition own_props (v : value) : list (string * value) :=
  match v with
  | Obj ps => ps
  | Arr l => indexed 0 l
  | Str s => indexed 0 (chars s)
  | _ => []
  end.

(** [Array.prototype.unshift] with one argument, as a method call on [v]:
    only arrays have the method. *)
Definition array_unshift (x : value) (v : value) : completion value :=
  match v with
  | Arr l => Normal (Arr (x :: l))
  | _ => Throw TypeError
  end.

Fixpoint filter_list (f : value → completion bool) (l : list value)
  : completion (list value) :=
  match l with
  | [] => Normal []
  | x :: l' =>
      keep ← f x;
      r ← filter_list f l';
      Normal (if keep : bool then x :: r else r)
  end.

(** [v.filter(f)]. *)
Definition array_filter (f : value → completion bool) (v : value) : completion value :=
  match v with
  | Arr l => r ← filter_list f l; Normal (Arr r)
  | _ => Throw TypeError
  end.

Fixpoint map_list (f : value → completion value) (l : list value)
  : completion (list value) :=
  match l with
  | [] => Normal []
  | x :: l' =>
      y ← f x;
      r ← map_list f l';
      Normal (y :: r)
  end.

(** [v.map(f)]. *)
Definition array_map (f : value → completion value) (v : value) : completion value :=
  match v with
  | Arr l => r ← map_list f l; Normal (Arr r)
  | _ => Throw TypeError
  end.

End Js.

(** ** JSON text *)

(** [JSON.stringify] and [JSON.parse] of the platform, on the values of
    [Js].  Two parts of the grammar are left out, and [parse] answers
    [None] on them as on text that is not JSON: number literals with a
    fraction or an exponent, and [\u] escapes of surrogate halves. *)
Module Json.
Import Js.

Definition dquote : ascii := ascii_of_N 34.
Definition backslash : ascii := ascii_of_N 92.

Definition byte_is (c : ascii) (n : N) : bool := (code c =? n)%N.

(** *** JSON.stringify *)

Definition hex_digit (n : N) : ascii :=
  ascii_of_N (if (n <? 10)%N then 48 + n else 87 + n).

(** QuoteJSONString, one byte at a time: the two-character escapes, a
    [\u00xx] escape for the other control characters, the byte itself
    otherwise. *)
Definition escape_char (c : ascii) : string :=
  if byte_is c 34 then String backslash (String dquote EmptyString)
  else if byte_is c 92 then String backslash (String backslash EmptyString)
  else if byte_is c 8 then "\b"
  else if byte_is c 9 then "\t"
  else if byte_is c 10 then "\n"
  else if byte_is c 12 then "\f"
  else if byte_is c 13 then "\r"
  else if (code c <? 32)%N then
    "\u00" +:+ String (hex_digit (code c / 16)) (String (hex_digit (code c mod 16)) EmptyString)
  else String c EmptyString.

Fixpoint escape (s : string) : string :=
  match s with
  | EmptyString => EmptyString
  | String c r => escape_char c +:+ escape r
  end.

Definition quote (s : string) : string :=
  String dquote (escape s +:+ String dquote EmptyString).

Fixpoint join_comma (l : list string) : string :=
  match l with
  | [] => EmptyString
  | [x] => x
  | x :: l' => x +:+ "," +:+ join_comma l'
  end.

(** [JSON.stringify v], without indentation. *)
Fixpoint stringify (v : value) : string :=
  match v with
  | Null => "null"
  | Bool true => "true"
  | Bool false => "false"
  | Num n => pretty n
  | Str s => quote s
  | Arr l => "[" +:+ join_comma (List.map stringify l) +:+ "]"
  | Obj ps =>
      "{" +:+ join_comma (List.map (λ p, quote p.1 +:+ ":" +:+ stringify p.2) ps) +:+ "}"
  end.

(** *** JSON.parse *)

(** A parser step: the result and the text that is left, or [None]. *)
Definition parser (A : Type) : Type := string → option (A * string).

Definition is_ws (c : ascii) : bool :=
  byte_is c 32 || byte_is c 9 || byte_is c 10 || byte_is c 13.

Fixpoint skip_ws (s : string) : string :=
  match s with
  | EmptyString => s
  | String c r => if is_ws c then skip_ws r else s
  end.

Fixpoint strip_prefix (p s : string) : option string :=
  match p, s with
  | EmptyString, _ => Some s
  | String a p', String b s' => if Ascii.eqb a b then strip_prefix p' s' else None
  | String _ _, EmptyString => None
  end.

Definition hex_value (c : ascii) : option N :=
  let n := code c in
  if (48 <=? n)%N && (n <=? 57)%N then Some (n - 48)%N
  else if (97 <=? n)%N && (n <=? 102)%N then Some (n - 87)%N
  else if (65 <=? n)%N && (n <=? 70)%N then Some (n - 55)%N
  else None.

(** The UTF-8 bytes of a code point of the basic plane.  A surrogate
    half has none: such escapes are outside the embedding. *)
Definition utf8 (cp : N) : option string :=
  if (cp <? 128)%N then Some (String (ascii_of_N cp) EmptyString)
  else if (cp <? 2048)%N then
    Some (String (ascii_of_N (192 + cp / 64))
         (String (ascii_of_N (128 + cp mod 64)) EmptyString))
  else if (55296 <=? cp)%N && (cp <=? 57343)%N then None
  else
    Some (String (ascii_of_N (224 + cp / 4096))
         (String (ascii_of_N (128 + (cp / 64) mod 64))
         (String (ascii_of_N (128 + cp mod 64)) EmptyString))).

(** Where the scanner stands inside a string literal. *)
Inductive str_state : Type :=
| Plain
| Escape
| Hex (todo : nat) (acc : N).

Definition emit (bytes : string) (r : option (string * string))
  : option (string * string) :=
  match r with
  | Some (str, rest) => Some (bytes +:+ str, rest)
  | None => None
  end.

(** The characters of a string literal, from after the opening quote up
    to and including the closing one. *)
Fixpoint parse_chars (st : str_state) (s : string) : option (string * string) :=
  match s with
  | EmptyString => None
  | String c r =>
      match st with
      | Plain =>
          if byte_is c 34 then Some (EmptyString, r)
          else if byte_is c 92 then parse_chars Escape r
          else if (code c <? 32)%N then None
          else emit (String c EmptyString) (parse_chars Plain r)
      | Escape =>
          if byte_is c 34 || byte_is c 92 || byte_is c 47
          then emit (String c EmptyString) (parse_chars Plain r)
          else if byte_is c 98 then emit (String (ascii_of_N 8) EmptyString) (parse_chars Plain r)
          else if byte_is c 102 then emit (String (ascii_of_N 12) EmptyString) (parse_chars Plain r)
          else if byte_is c 110 then emit (String (ascii_of_N 10) EmptyString) (parse_chars Plain r)
          else if byte_is c 114 then emit (String (ascii_of_N 13) EmptyString) (parse_chars Plain r)
          else if byte_is c 116 then emit (String (ascii_of_N 9) EmptyString) (parse_chars Plain r)
          else if byte_is c 117 then parse_chars (Hex 4 0) r
          else None
      | Hex todo acc =>
          match hex_value c, todo with
          | Some d, 1 =>
              match utf8 (16 * acc + d) with
              | Some bytes => emit bytes (parse_chars Plain r)
              | None => None
              end
          | Some d, S todo' => parse_chars (Hex todo' (16 * acc + d)) r
          | _, _ => None
          end
      end
  end.

Definition is_digit (c : ascii) : bool := (48 <=? code c)%N && (code c <=? 57)%N.

Fixpoint take_digits (s : string) : string * string :=
  match s with
  | EmptyString => (EmptyString, s)
  | String c r =>
      if is_digit c then let '(ds, rest) := take_digits r in (String c ds, rest)
      else (EmptyString, s)
  end.

(** What may not follow the integer part: more of a number (a fraction
    or an exponent, which the embedding leaves out). *)
Definition number_goes_on (s : string) : bool :=
  match s with
  | String c _ => byte_is c 46 || byte_is c 101 || byte_is c 69
  | EmptyString => false
  end.

Definition parse_digits (s : string) : option (N * string) :=
  let '(ds, rest) := take_digits s in
  match ds with
  | EmptyString => None
  | String d ds' =>
      if byte_is d 48 && truthy ds' then None
      else if number_goes_on rest then None
      else Some (digits_value 0 ds, rest)
  end.

Definition parse_number : parser Z := λ s,
  match s with
  | String c r =>
      if byte_is c 45
      then '(n, rest) ← parse_digits r; Some (- Z.of_N n, rest)%Z
      else '(n, rest) ← parse_digits s; Some (Z.of_N n, rest)
  | EmptyString => None
  end.

(** The elements after [[], up to and including the closing bracket;
    [n] bounds their number. *)
Fixpoint parse_elements (pv : parser value) (n : nat) : parser (list value) := λ s,
  match n with
  | O => None
  | S n' =>
      '(v, r) ← pv s;
      match skip_ws r with
      | String c r' =>
          if byte_is c 44 then '(vs, r'') ← parse_elements pv n' r'; Some (v :: vs, r'')
          else if byte_is c 93 then Some ([v], r')
          else None
      | EmptyString => None
      end
  end.

(** The members after [{], up to and including the closing brace, in
    the order of the text. *)
Fixpoint parse_members (pv : parser value) (n : nat)
  : parser (list (string * value)) := λ s,
  match n with
  | O => None
  | S n' =>
      match skip_ws s with
      | String q r =>
          if byte_is q 34 then
            '(k, r1) ← parse_chars Plain r;
            match skip_ws r1 with
            | String c r2 =>
                if byte_is c 58 then
                  '(v, r3) ← pv r2;
                  match skip_ws r3 with
                  | String c' r4 =>
                      if byte_is c' 44
                      then '(ps, r5) ← parse_members pv n' r4; Some ((k, v) :: ps, r5)
                      else if byte_is c' 125 then Some ([(k, v)], r4)
                      else None
                  | EmptyString => None
                  end
                else None
            | EmptyString => None
            end
          else None
      | EmptyString => None
      end
  end.

(** The object a member list builds: each member is defined in turn, so
    a repeated key keeps its first place and its last value. *)
Definition build_object (members : list (string * value)) : list (string * value) :=
  fold_left (λ ps m, define_prop m.1 m.2 ps) members [].

Fixpoint parse_value (fuel : nat) : parser value := λ s,
  match fuel with
  | O => None
  | S fuel' =>
      match skip_ws s with
      | EmptyString => None
      | String c r =>
          if byte_is c 34 then
            '(str, rest) ← parse_chars Plain r; Some (Str str, rest)
          else if byte_is c 91 then
            match skip_ws r with
            | String c' r' =>
                if byte_is c' 93 then Some (Arr [], r')
                else '(vs, rest) ← parse_elements (parse_value fuel') fuel' r;
                     Some (Arr vs, rest)
            | EmptyString => None
            end
          else if byte_is c 123 then
            match skip_ws r with
            | String c' r' =>
                if byte_is c' 125 then Some (Obj [], r')
                else '(ms, rest) ← parse_members (parse_value fuel') fuel' r;
                     Some (Obj (build_object ms), rest)
            | EmptyString => None
            end
          else if byte_is c 116 then
            rest ← strip_prefix "true" (String c r); Some (Bool true, rest)
          else if byte_is c 102 then
            rest ← strip_prefix "false" (String c r); Some (Bool false, rest)
          else if byte_is c 110 then
            rest ← strip_prefix "null" (String c r); Some (Null, rest)
          else
            '(n, rest) ← parse_number (String c r); Some (Num n, rest)
      end
  end.

(** [JSON.parse s]: one value, then nothing but white space.  [None] is
    the SyntaxError.  The fuel is the length of the text: a value nests
    no deeper and a list is no longer than its text. *)
Definition parse (s : string) : option value :=
  match parse_value (S (String.length s)) s with
  | Some (v, rest) => if truthy (skip_ws rest) then None else Some v
  | None => None
  end.

(** Sample texts are written with apostrophes in the place of the double
    quotes of JSON. *)
Fixpoint sq (s : string) : string :=
  match s with
  | EmptyString => EmptyString
  | String c r => String (if byte_is c 39 then dquote else c) (sq r)
  end.

(** *** The values a round trip keeps *)

(** The property lists an engine can hold: defining the properties one
    after the other gives the list back (no key twice, array indices
    first and ascending). *)
#[warnings="-register-all"]
Inductive canonical : value → Prop :=
| canonical_Null : canonical Null
| canonical_Bool b : canonical (Bool b)
| canonical_Num n : canonical (Num n)
| canonical_Str s : canonical (Str s)
| canonical_Arr l : Forall canonical l → canonical (Arr l)
| canonical_Obj ps :
    build_object ps = ps → Forall (λ p, canonical p.2) ps → canonical (Obj ps).

(** Nodes of a value, counting an element once more for its place in
    the list: enough fuel to read its text. *)
Fixpoint size (v : value) : nat :=
  match v with
  | Arr l => S (list_sum (List.map (λ x, S (size x)) l))
  | Obj ps => S (list_sum (List.map (λ p, S (size p.2)) ps))
  | _ => 1
  end.

(** The text of one member of an object. *)
Definition member_text (p : string * value) : string :=
  quote p.1 +:+ ":" +:+ stringify p.2.

(** Text that cannot continue a number. *)
Definition delimited (rest : string) : Prop :=
  match rest with
  | EmptyString => True
  | String c _ => is_digit c = false ∧ number_goes_on rest = false
  end.

(** [pv] reads [x] back from its text, whatever delimited text follows. *)
Definition reads (pv : parser value) (x : value) : Prop :=
  ∀ rest, delimited rest → pv (stringify x +:+ rest) = Some (x, rest).

(** The numeral of a positive number: digits only, no leading zero, and
    it reads back as the number. *)
Record numeral (n : N) (ds : string) : Prop := {
  numeral_digits : all_digits ds = true;
  numeral_value : digits_value 0 ds = n;
  numeral_head : ∃ c r, ds = String c r ∧ byte_is c 48 = false;
}.

(** How a numeral starts: a minus sign or a digit. *)
Definition number_head (c : ascii) : Prop := byte_is c 45 = true ∨ is_digit c = true.

End Json.

(** ** The component *)

(** The auth store (pinia): every field may be missing. *)
Module AuthStore.
Record t : Type := mk {
  userId : option string;
  token : option string;
  fullName : option string;
}.
End AuthStore.

Module CommentPanel.

(** What [createComment] resolves with; the fields are read as
    [response._id], [response.comment] and [response.createdAt]. *)
Record CreateResponse : Type := {
  _id : string;
  comment : string;
  createdAt : string;
}.

(** What the component does to the outside, in the order it does it. *)
Inductive effect : Type :=
| ModalWarning (title content okText : string)
| RouterPush (path : string)
| CreateComment (postId text token : string)
| DeleteComment (commentId token : string)
| Confirm (message : string)
| Alert (message : string)
| ConsoleError (message : string) (e : Js.exn)
| SetItem (key text : string)
| Uncaught (e : Js.exn).

(** The refs and props of one component instance, with the two stores it
    reads: [authStore] and [localStorage]. *)
Record State : Type := {
  postId : string;
  authStore : AuthStore.t;
  userId : string;
  token : string;
  submitting : bool;
  value : string;
  comments : Js.value;
  localStorage : gmap string string;
}.

Definition set_postId (x : string) (st : State) : State :=
  {| postId := x; authStore := authStore st; userId := userId st;
     token := token st; submitting := submitting st; value := value st;
     comments := comments st; localStorage := localStorage st |}.

Definition set_authStore (x : AuthStore.t) (st : State) : State :=
  {| postId := postId st; authStore := x; userId := userId st;
     token := token st; submitting := submitting st; value := value st;
     comments := comments st; localStorage := localStorage st |}.

Definition set_submitting (x : bool) (st : State) : State :=
  {| postId := postId st; authStore := authStore st; userId := userId st;
     token := token st; submitting := x; value := value st;
     comments := comments st; localStorage := localStorage st |}.

Definition set_value (x : string) (st : State) : State :=
  {| postId := postId st; authStore := authStore st; userId := userId st;
     token := token st; submitting := submitting st; value := x;
     comments := comments st; localStorage := localStorage st |}.

Definition set_comments (x : Js.value) (st : State) : State :=
  {| postId := postId st; authStore := authStore st; userId := userId st;
     token := token st; submitting := submitting st; value := value st;
     comments := x; localStorage := localStorage st |}.

Definition set_localStorage (x : gmap string string) (st : State) : State :=
  {| postId := postId st; authStore := authStore st; userId := userId st;
     token := token st; submitting := submitting st; value := value st;
     comments := comments st; localStorage := x |}.

(** How far the synchronous part of an async handler got. *)
Inductive progress : Type := Returned | Awaiting.

(** The key [`comments_${props.postId}`]. *)
Definition cache_key (postId : string) : string := "comments_" +:+ postId.

(** [getStoredComments]: a missing entry and the empty string are falsy
    and give [[]]; anything else goes through [JSON.parse] as it is. *)
Definition getStoredComments (storage : gmap string string) (postId : string)
  : Js.completion Js.value :=
  let saved := storage !! cache_key postId in
  match saved with
  | Some text =>
      if Js.truthy text then
        match Json.parse text with
        | Some v => Js.Normal v
        | None => Js.Throw Js.SyntaxError
        end
      else Js.Normal (Js.Arr [])
  | None => Js.Normal (Js.Arr [])
  end.

(** The script's top level: the refs take their first values. *)
Definition setup (auth : AuthStore.t) (postId : string) (storage : gmap string string)
  : Js.completion State :=
  stored ← getStoredComments storage postId;
  Js.Normal {| postId := postId; authStore := auth;
               userId := default EmptyString (AuthStore.userId auth);
               token := default EmptyString (AuthStore.token auth);
               submitting := false; value := EmptyString;
               comments := stored; localStorage := storage |}.

(** [saveCommentsToStorage]. *)
Definition saveCommentsToStorage (st : State) : State * list effect :=
  let key := cache_key (postId st) in
  let text := Json.stringify (comments st) in
  (set_localStorage (<[key := text]> (localStorage st)) st, [SetItem key text]).

(** The period of the timer, in milliseconds. *)
Definition refresh_interval : Z := 60000.

(** The arrow function the timer maps over the list: a copy of the
    comment with a fresh [relativeTime].  [fromNow x] is the label
    [dayjs(x).locale('ko').fromNow()] at the time of the tick. *)
Definition with_relativeTime (fromNow : option Js.value → string) (comment : Js.value)
  : Js.completion Js.value :=
  let copied := Js.own_props comment in
  datetime ← Js.get comment "datetime";
  Js.Normal (Js.Obj (Js.define_prop "relativeTime" (Js.Str (fromNow datetime)) copied)).

(** The timer's callback. *)
Definition tick (fromNow : option Js.value → string) (st : State) : State * list effect :=
  match Js.array_map (with_relativeTime fromNow) (comments st) with
  | Js.Normal v => (set_comments v st, [])
  | Js.Throw e => (st, [Uncaught e])
  end.

Definition login_prompt : effect :=
  ModalWarning "로그인 필요" "댓글을 작성하려면 로그인이 필요합니다." "로그인하기".

(** [onOk] of the login prompt. *)
Definition login_prompt_onOk : list effect := [RouterPush "/login"].

(** The object literal [newComment]. *)
Definition newComment (auth : AuthStore.t) (response : CreateResponse) : Js.value :=
  Js.Obj [("id", Js.Str (_id response));
          ("author", Js.Str (default "익명" (AuthStore.fullName auth)));
          ("avatar", Js.Str "/images/user-dummy.png");
          ("content", Js.Str (comment response));
          ("datetime", Js.Str (createdAt response))].

(** [handleSubmit] up to the [await]: the two guards, the flag, the
    request. *)
Definition handleSubmit_begin (st : State) : State * list effect * progress :=
  if negb (Js.truthy (Js.trim (value st))) then (st, [], Returned)
  else if negb (Js.truthy (userId st)) then (st, [login_prompt], Returned)
  else
    (set_submitting true st,
     [CreateComment (postId st) (value st) (token st)], Awaiting).

(** [handleSubmit] from the [await] on, given how the request ended:
    the rest of [try], or [catch], then [finally]. *)
Definition handleSubmit_resume (outcome : Js.completion CreateResponse) (st : State)
  : State * list effect :=
  let tried : Js.completion (State * list effect) :=
    response ← outcome;
    list ← Js.array_unshift (newComment (authStore st) response) (comments st);
    let '(st1, effs) := saveCommentsToStorage (set_comments list st) in
    Js.Normal (set_value EmptyString st1, effs) in
  let '(st2, effs) :=
    match tried with
    | Js.Normal r => r
    | Js.Throw e =>
        (st, [ConsoleError "❌ 댓글 작성 실패:" e;
              Alert "댓글 작성 중 오류가 발생했습니다."])
    end in
  (set_submitting false st2, effs).

(** [handleSubmit] when nothing else runs during the [await]. *)
Definition handleSubmit
    (createComment : string → string → string → Js.completion CreateResponse)
    (st : State) : State * list effect :=
  match handleSubmit_begin st with
  | (st1, effs, Returned) => (st1, effs)
  | (st1, effs, Awaiting) =>
      let outcome := createComment (postId st1) (value st1) (token st1) in
      let '(st2, effs') := handleSubmit_resume outcome st1 in
      (st2, effs ++ effs')
  end.

Definition delete_question : string := "댓글을 삭제하시겠습니까?".

(** [handleDelete] up to the [await]; [confirmed] is the answer to
    [confirm]. *)
Definition handleDelete_begin (commentId : string) (confirmed : bool) (st : State)
  : State * list effect * progress :=
  if negb confirmed then (st, [Confirm delete_question], Returned)
  else (st, [Confirm delete_question; DeleteComment commentId (token st)], Awaiting).

(** The arrow function of the filter: [c.id !== commentId]. *)
Definition other_than (commentId : string) (c : Js.value) : Js.completion bool :=
  id ← Js.get c "id";
  Js.Normal (Js.strict_ne id commentId).

(** [handleDelete] from the [await] on. *)
Definition handleDelete_resume (commentId : string) (outcome : Js.completion ())
    (st : State) : State * list effect :=
  let tried : Js.completion (State * list effect) :=
    _ ← outcome;
    kept ← Js.array_filter (other_than commentId) (comments st);
    Js.Normal (saveCommentsToStorage (set_comments kept st)) in
  match tried with
  | Js.Normal r => r
  | Js.Throw e =>
      (st, [ConsoleError "❌ 댓글 삭제 실패:" e;
            Alert "댓글 삭제 중 오류가 발생했습니다."])
  end.

(** [handleDelete] when nothing else runs during the [await]. *)
Definition handleDelete
    (deleteComment : string → string → Js.completion ())
    (commentId : string) (confirmed : bool) (st : State) : State * list effect :=
  match handleDelete_begin commentId confirmed st with
  | (st1, effs, Returned) => (st1, effs)
  | (st1, effs, Awaiting) =>
      let '(st2, effs') :=
        handleDelete_resume commentId (deleteComment commentId (token st1)) st1 in
      (st2, effs ++ effs')
  end.

(** [comments.value = getStoredComments()], as a statement of a callback:
    an exception leaves the ref as it was and escapes the callback. *)
Definition reload (st : State) : State * list effect :=
  match getStoredComments (localStorage st) (postId st) with
  | Js.Normal v => (set_comments v st, [])
  | Js.Throw e => (st, [Uncaught e])
  end.

(** The callback of [watch(() => props.postId, ...)]. *)
Definition watch_postId (newPostId : string) (st : State) : State * list effect :=
  if Js.truthy newPostId then reload st else (st, []).

(** The parent passes a new [postId]: the prop changes, and the watcher
    runs when the value differs from the old one. *)
Definition change_postId (newPostId : string) (st : State) : State * list effect :=
  let st' := set_postId newPostId st in
  if String.eqb newPostId (postId st) then (st', []) else watch_postId newPostId st'.

(** The [onMounted] hook. *)
Definition onMounted (st : State) : State * list effect := reload st.

(** *** Comments as the type annotation has them *)

(** An element of [comments] as the [ref] is typed, with the
    [relativeTime] the timer adds. *)
Record Comment : Type := {
  id : string;
  author : string;
  avatar : string;
  content : string;
  datetime : string;
  relativeTime : option string;
}.

Definition to_value (c : Comment) : Js.value :=
  Js.Obj ([("id", Js.Str (id c));
           ("author", Js.Str (author c));
           ("avatar", Js.Str (avatar c));
           ("content", Js.Str (content c));
           ("datetime", Js.Str (datetime c))]
          ++ match relativeTime c with
             | Some label => [("relativeTime", Js.Str label)]
             | None => []
             end).

Definition to_array (cs : list Comment) : Js.value := Js.Arr (List.map to_value cs).

(** The comment the timer leaves in the place of [c]. *)
Definition relabel (fromNow : option Js.value → string) (c : Comment) : Comment :=
  {| id := id c; author := author c; avatar := avatar c; content := content c;
     datetime := datetime c;
     relativeTime := Some (fromNow (Some (Js.Str (datetime c)))) |}.

(** Two comments with the same stored fields: all but the label. *)
Definition same_stored (c c' : Comment) : Prop :=
  id c' = id c ∧ author c' = author c ∧ avatar c' = avatar c
  ∧ content c' = content c ∧ datetime c' = datetime c.

(** The calls to the comment service. *)
Definition is_request (e : effect) : bool :=
  match e with
  | CreateComment _ _ _ | DeleteComment _ _ => true
  | _ => false
  end.

Definition is_cache_write (e : effect) : bool :=
  match e with
  | SetItem _ _ => true
  | _ => false
  end.

(** The comment record that [newComment] builds. *)
Definition new_record (auth : AuthStore.t) (response : CreateResponse) : Comment :=
  {| id := _id response; author := default "익명" (AuthStore.fullName auth);
     avatar := "/images/user-dummy.png"; content := comment response;
     datetime := createdAt response; relativeTime := None |}.

(** *** The component as a transition system *)

(** What can happen to a mounted component, one turn of the event loop
    each.  A request settles in a turn of its own, after any number of
    other events. *)
Inductive event : Type :=
| Typed (text : string)
| AuthChanged (auth : AuthStore.t)
| SubmitClicked
| CreateSettled (outcome : Js.completion CreateResponse)
| DeleteClicked (commentId : string) (confirmed : bool)
| DeleteSettled (commentId : string) (outcome : Js.completion ())
| TimerFired (fromNow : option Js.value → string)
| PostIdPassed (newPostId : string)
| Mounted.

Definition step (ev : event) (st : State) : State * list effect :=
  match ev with
  | Typed text => (set_value text st, [])
  | AuthChanged auth => (set_authStore auth st, [])
  | SubmitClicked => (handleSubmit_begin st).1
  | CreateSettled outcome => handleSubmit_resume outcome st
  | DeleteClicked commentId confirmed => (handleDelete_begin commentId confirmed st).1
  | DeleteSettled commentId outcome => handleDelete_resume commentId outcome st
  | TimerFired fromNow => tick fromNow st
  | PostIdPassed newPostId => change_postId newPostId st
  | Mounted => onMounted st
  end.

Fixpoint run (evs : list event) (st : State) : State :=
  match evs with
  | [] => st
  | ev :: evs' => run evs' (step ev st).1
  end.

(** The cache as the component writes it: every entry under a comments
    key is the text of a list of comment records. *)
Definition well_cached (storage : gmap string string) : Prop :=
  ∀ postId text, storage !! cache_key postId = Some text →
                 ∃ cs, text = Json.stringify (to_array cs).

(** The states of the data model: the list is a list of comment records
    and the cache is as the component writes it. *)
Definition well_formed (st : State) : Prop :=
  (∃ cs, comments st = to_array cs) ∧ well_cached (localStorage st).

(** *** Scenarios *)

Definition alice : AuthStore.t :=
  {| AuthStore.userId := Some "u1"; AuthStore.token := Some "t1";
     AuthStore.fullName := Some "Alice" |}.

Definition nobody : AuthStore.t :=
  {| AuthStore.userId := None; AuthStore.token := None; AuthStore.fullName := None |}.

(** Post 42, nothing cached, Alice has typed [hello]. *)
Definition alice_on_42 : State :=
  {| postId := "42"; authStore := alice; userId := "u1"; token := "t1";
     submitting := false; value := "hello"; comments := Js.Arr [];
     localStorage := ∅ |}.

(** A logged-out visitor with an empty draft. *)
Definition visitor_on_42 : State :=
  {| postId := "42"; authStore := nobody; userId := EmptyString; token := EmptyString;
     submitting := false; value := EmptyString; comments := Js.Arr [];
     localStorage := ∅ |}.

Definition created_c1 : CreateResponse :=
  {| _id := "c1"; comment := "hello"; createdAt := "2024-01-01T00:00:00Z" |}.

Definition comment_c1 : Comment :=
  {| id := "c1"; author := "Alice"; avatar := "/images/user-dummy.png";
     content := "hello"; datetime := "2024-01-01T00:00:00Z"; relativeTime := None |}.

Definition comment_c2 : Comment :=
  {| id := "c2"; author := "Bob"; avatar := "/images/user-dummy.png";
     content := "hi"; datetime := "2024-01-02T00:00:00Z"; relativeTime := None |}.

(** Post 42 showing two comments, both cached. *)
Definition two_comments : State :=
  {| postId := "42"; authStore := alice; userId := "u1"; token := "t1";
     submitting := false; value := EmptyString;
     comments := to_array [comment_c2; comment_c1];
     localStorage :=
       {[ cache_key "42" := Json.stringify (to_array [comment_c2; comment_c1]) ]} |}.

(** A comment service that accepts everything, and one that is down. *)
Definition create_ok (response : CreateResponse) : string → string → string → Js.completion CreateResponse :=
  λ _ _ _, Js.Normal response.

Definition create_down : string → string → string → Js.completion CreateResponse :=
  λ _ _ _, Js.Throw Js.RequestError.

Definition delete_ok : string → string → Js.completion () := λ _ _, Js.Normal ().

Definition delete_down : string → string → Js.completion () :=
  λ _ _, Js.Throw Js.RequestError.

Definition a_minute_ago : option Js.value → string := λ _, "1분 전".

End CommentPanel.

(** ** The template *)

(** The list part of the template, on comments as the [ref] types them. *)
Module Template.
Import CommentPanel.

(** What one [a-comment] of the list shows; [delete_icon] is the id its
    click hands to [handleDelete], when the icon is there. *)
Record Item : Type := {
  shown_author : string;
  shown_avatar : string;
  shown_content : string;
  shown_time : string;
  delete_icon : option string;
}.

(** [item.author === authStore.fullName]. *)
Definition own (auth : AuthStore.t) (item : Comment) : bool :=
  match AuthStore.fullName auth with
  | Some name => String.eqb (author item) name
  | None => false
  end.

(** The [renderItem] slot; [fromNow] is the clock at the time of the
    rendering. *)
Definition render_item (fromNow : option Js.value → string) (auth : AuthStore.t)
    (item : Comment) : Item :=
  {| shown_author := author item; shown_avatar := avatar item;
     shown_content := content item;
     shown_time := fromNow (Some (Js.Str (datetime item)));
     delete_icon := if own auth item then Some (id item) else None |}.

(** The [a-list], there only when [comments.length] is not zero. *)
Definition render (fromNow : option Js.value → string) (auth : AuthStore.t)
    (cs : list Comment) : option (list Item) :=
  match cs with
  | [] => None
  | _ :: _ => Some (render_item fromNow auth <$> cs)
  end.

End Template.

(** ** Kinds of events and of states *)

Module Kinds.
Import CommentPanel.

(** The events that can send a request. *)
Definition may_request (ev : event) : bool :=
  match ev with
  | SubmitClicked | DeleteClicked _ true => true
  | _ => false
  end.

(** The events that can write the cache: a request that the service
    accepted. *)
Definition may_write (ev : event) : bool :=
  match ev with
  | CreateSettled (Js.Normal _) | DeleteSettled _ (Js.Normal _) => true
  | _ => false
  end.

(** The events of [handleSubmit]. *)
Definition of_submit (ev : event) : bool :=
  match ev with
  | SubmitClicked | CreateSettled _ => true
  | _ => false
  end.

(** The events after which the list has just been written to the cache
    or read from it. *)
Definition refreshes (ev : event) (st : State) : bool :=
  match ev with
  | CreateSettled (Js.Normal _) | DeleteSettled _ (Js.Normal _) | Mounted => true
  | PostIdPassed newPostId => Js.truthy newPostId && negb (String.eqb newPostId (postId st))
  | _ => false
  end.

(** The cache entry of the post reads as the list on the screen. *)
Definition shows_cache (st : State) : Prop :=
  getStoredComments (localStorage st) (postId st) = Js.Normal (comments st).

(** A draft of ASCII white space only. *)
Fixpoint spaces_only (s : string) : bool :=
  match s with
  | EmptyString => true
  | String c r => Js.ws1 c && spaces_only r
  end.

(** Bob, with a draft, on a post whose cache holds two comments. *)
Definition bob : AuthStore.t :=
  {| AuthStore.userId := Some "u2"; AuthStore.token := Some "t2";
     AuthStore.fullName := Some "Bob" |}.

Definition bob_on_42 : State :=
  {| postId := "42"; authStore := bob; userId := "u2"; token := "t2";
     submitting := false; value := "me too";
     comments := to_array [comment_c2; comment_c1];
     localStorage :=
       {[ cache_key "42" := Json.stringify (to_array [comment_c2; comment_c1]) ]} |}.

Definition created_c3 : CreateResponse :=
  {| _id := "c3"; comment := "me too"; createdAt := "2024-01-03T00:00:00Z" |}.

End Kinds.

(** * Facts *)

(** ** The JSON round trip *)

Module JsonFacts.
Import Js Json.

#[local] Arguments String.append !_ _ / : simpl nomatch.

Lemma app_assoc_s (a b c : string) : (a +:+ b) +:+ c = a +:+ (b +:+ c).
Proof. induction a as [|x a IH]; simpl; [done | by f_equal]. Qed.

Lemma app_nil_r_s (a : string) : a +:+ EmptyString = a.
Proof. induction a as [|x a IH]; simpl; [done | by f_equal]. Qed.

Lemma length_app_s (a b : string) :
  String.length (a +:+ b) = String.length a + String.length b.
Proof. induction a as [|x a IH]; simpl; [done | by f_equal]. Qed.

(** Appends to the right, then evaluation of what is known. *)
Ltac normalize_app := repeat (rewrite !app_assoc_s || (progress simpl)).

(** *** Decimal numerals *)

Lemma code_digit (d : N) : (d < 10)%N → code (pretty_N_char d) = (48 + d)%N.
Proof.
  intros Hd.
  assert (d = 0 ∨ d = 1 ∨ d = 2 ∨ d = 3 ∨ d = 4 ∨ d = 5 ∨ d = 6 ∨ d = 7
          ∨ d = 8 ∨ d = 9)%N as Hcases by lia.
  repeat destruct Hcases as [-> | Hcases]; try reflexivity.
  by subst.
Qed.

Lemma digit_char_is_digit (d : N) :
  (d < 10)%N → (48 <=? code (pretty_N_char d))%N && (code (pretty_N_char d) <=? 57)%N = true.
Proof.
  intros Hd. rewrite code_digit by done.
  apply andb_true_intro; split; apply N.leb_le; lia.
Qed.

Lemma all_digits_app (a b : string) :
  all_digits (a +:+ b) = all_digits a && all_digits b.
Proof. induction a as [|x a IH]; simpl; [done | by rewrite IH, andb_assoc]. Qed.

Lemma digits_value_app (a b : string) (acc : N) :
  digits_value acc (a +:+ b) = digits_value (digits_value acc a) b.
Proof. revert acc; induction a as [|x a IH]; intros acc; simpl; [done | by rewrite IH]. Qed.

Lemma pretty_N_go_numeral (n : N) :
  (0 < n)%N → ∃ ds, numeral n ds ∧ ∀ s, pretty_N_go n s = ds +:+ s.
Proof.
  induction (N.lt_wf_0 n) as [n _ IH]; intros Hpos.
  assert (∀ s, pretty_N_go n s
               = pretty_N_go (n `div` 10) (String (pretty_N_char (n `mod` 10)) s))
    as Hstep by (intros s; by apply pretty_N_go_step).
  assert (n `mod` 10 < 10)%N as Hr by (by apply N.mod_lt).
  pose proof (N.div_mod n 10 ltac:(done)) as Hqr.
  set (q := (n `div` 10)%N) in *. set (r := (n `mod` 10)%N) in *. clearbody q r.
  pose proof (code_digit _ Hr) as Hcode.
  pose proof (digit_char_is_digit _ Hr) as Hdigit.
  destruct (decide (q = 0%N)) as [-> | Hq].
  - exists (String (pretty_N_char r) EmptyString). split.
    + split; simpl.
      * by rewrite Hdigit.
      * rewrite Hcode. lia.
      * eexists _, _; split; [done |]. unfold byte_is. rewrite Hcode.
        apply N.eqb_neq. lia.
    + intros s. by rewrite Hstep, pretty_N_go_0.
  - destruct (IH q) as (ds & [Hd Hv Hh] & Hgo); [lia | lia |].
    exists (ds +:+ String (pretty_N_char r) EmptyString). split.
    + split.
      * rewrite all_digits_app, Hd. simpl. by rewrite Hdigit.
      * rewrite digits_value_app, Hv. simpl. rewrite Hcode. lia.
      * destruct Hh as (c & r' & -> & Hc). simpl. eauto.
    + intros s. by rewrite Hstep, Hgo, app_assoc_s.
Qed.

Lemma pretty_N_numeral (n : N) : (0 < n)%N → numeral n (pretty n).
Proof.
  intros Hpos. destruct (pretty_N_go_numeral n Hpos) as (ds & Hnum & Hgo).
  unfold pretty, pretty_N. destruct (decide (n = 0%N)); [lia |].
  by rewrite Hgo, app_nil_r_s.
Qed.

Lemma take_digits_app (ds rest : string) :
  all_digits ds = true → delimited rest → take_digits (ds +:+ rest) = (ds, rest).
Proof.
  intros Hds Hrest. induction ds as [|c ds IH]; simpl.
  - destruct rest as [|c r]; [done |]. simpl. by destruct Hrest as [-> _].
  - simpl in Hds. apply andb_prop in Hds as [Hc Hds].
    unfold is_digit. rewrite Hc. by rewrite IH.
Qed.

Lemma delimited_goes_on rest : delimited rest → number_goes_on rest = false.
Proof. destruct rest; [done | by intros [_ ?]]. Qed.

Lemma parse_digits_numeral (n : N) (ds rest : string) :
  numeral n ds → delimited rest → parse_digits (ds +:+ rest) = Some (n, rest).
Proof.
  intros [Hd Hv (c & r & -> & Hc)] Hrest. unfold parse_digits.
  rewrite take_digits_app by done. rewrite Hc. simpl.
  by rewrite (delimited_goes_on _ Hrest), <- Hv.
Qed.

Lemma parse_digits_zero (rest : string) :
  delimited rest → parse_digits ("0" +:+ rest) = Some (0%N, rest).
Proof.
  intros Hrest. unfold parse_digits.
  rewrite (take_digits_app "0" rest) by done. simpl.
  by rewrite (delimited_goes_on _ Hrest).
Qed.

Lemma parse_number_pretty (z : Z) (rest : string) :
  delimited rest → parse_number (pretty z +:+ rest) = Some (z, rest).
Proof.
  intros Hrest. destruct z as [|p|p].
  - change (parse_number (pretty 0%Z +:+ rest)) with
      ('(n, rest') ← parse_digits ("0" +:+ rest); Some (Z.of_N n, rest')).
    by rewrite parse_digits_zero.
  - pose proof (pretty_N_numeral (N.pos p) eq_refl) as Hnum.
    change (pretty (Z.pos p)) with (pretty (N.pos p)).
    pose proof Hnum as [Hd _ (c & r & Hcr & _)].
    assert (byte_is c 45 = false) as Hc.
    { rewrite Hcr in Hd. simpl in Hd. unfold byte_is. apply N.eqb_neq.
      apply andb_prop in Hd as [Hd _].
      apply andb_prop in Hd as [?%N.leb_le _]. lia. }
    pose proof (parse_digits_numeral _ _ _ Hnum Hrest) as Hparse.
    rewrite Hcr in *. change (String c r +:+ rest) with (String c (r +:+ rest)) in *.
    unfold parse_number. by rewrite Hc, Hparse.
  - pose proof (pretty_N_numeral (N.pos p) eq_refl) as Hnum.
    change (parse_number (pretty (Z.neg p) +:+ rest)) with
      ('(n, rest') ← parse_digits (pretty (N.pos p) +:+ rest); Some (- Z.of_N n, rest')%Z).
    by rewrite (parse_digits_numeral _ _ _ Hnum Hrest).
Qed.

(** *** String literals *)

Lemma parse_chars_escape_char (c : ascii) (tail : string) :
  parse_chars Plain (escape_char c +:+ tail)
  = emit (String c EmptyString) (parse_chars Plain tail).
Proof. destruct c as [[] [] [] [] [] [] [] []]; reflexivity. Qed.

Lemma parse_chars_escape (s rest : string) :
  parse_chars Plain (escape s +:+ String dquote rest) = Some (s, rest).
Proof.
  induction s as [|c s IH]; [done |]. simpl.
  by rewrite app_assoc_s, parse_chars_escape_char, IH.
Qed.

Lemma parse_chars_quote (s rest : string) :
  ∃ tail, quote s +:+ rest = String dquote tail
          ∧ parse_chars Plain tail = Some (s, rest).
Proof.
  exists (escape s +:+ String dquote rest). split.
  - unfold quote. simpl. by rewrite app_assoc_s.
  - apply parse_chars_escape.
Qed.

(** *** Values *)

Lemma pretty_Z_head (z : Z) : ∃ c r, pretty z = String c r ∧ number_head c.
Proof.
  destruct z as [|p|p].
  - exists "0"%char, EmptyString. split; [done | by right].
  - destruct (pretty_N_numeral (N.pos p) eq_refl) as [Hd _ (c & r & Hcr & _)].
    exists c, r. split; [done |]. right.
    rewrite Hcr in Hd. simpl in Hd. by apply andb_prop in Hd as [? _].
  - exists "-"%char, (pretty (N.pos p)). split; [done | by left].
Qed.

Lemma number_head_dispatch (c : ascii) :
  number_head c →
  is_ws c = false ∧ byte_is c 34 = false ∧ byte_is c 91 = false
  ∧ byte_is c 93 = false ∧ byte_is c 123 = false ∧ byte_is c 125 = false
  ∧ byte_is c 116 = false ∧ byte_is c 102 = false ∧ byte_is c 110 = false.
Proof.
  unfold number_head, is_ws, is_digit, byte_is. generalize (code c) as n. intros n Hn.
  assert (n = 45 ∨ 48 ≤ n ≤ 57)%N as Hrange.
  { destruct Hn as [?%N.eqb_eq | [?%N.leb_le ?%N.leb_le]%andb_prop]; lia. }
  repeat split; repeat (apply orb_false_intro); apply N.eqb_neq; lia.
Qed.

(** The first character of a serialized value is neither white space nor
    a closing bracket. *)
Lemma stringify_head (v : value) :
  ∃ c r, stringify v = String c r ∧ is_ws c = false ∧ byte_is c 93 = false.
Proof.
  destruct v as [|[]|z|s|l|ps]; try (by eexists _, _).
  destruct (pretty_Z_head z) as (c & r & Hcr & Hc).
  exists c, r. split; [done |]. by destruct (number_head_dispatch c Hc) as (? & _ & _ & ? & _).
Qed.

Lemma delimited_cons (c : ascii) (r : string) :
  byte_is c 44 || byte_is c 93 || byte_is c 125 = true → delimited (String c r).
Proof.
  unfold delimited, number_goes_on, is_digit, byte_is. generalize (code c) as n.
  intros n Hn.
  assert (n = 44 ∨ n = 93 ∨ n = 125)%N as Hrange.
  { destruct (orb_prop _ _ Hn) as [[?%N.eqb_eq | ?%N.eqb_eq]%orb_prop | ?%N.eqb_eq]; lia. }
  split.
  - apply andb_false_iff. destruct Hrange as [-> | [-> | ->]]; [by left | by right..].
  - repeat (apply orb_false_intro); apply N.eqb_neq; lia.
Qed.

Section elements.
Context (pv : parser value).

Lemma parse_elements_join (l : list value) (n : nat) (rest : string) :
  l ≠ [] → Forall (reads pv) l → length l ≤ n →
  parse_elements pv n (join_comma (List.map stringify l) +:+ String "]" rest)
  = Some (l, rest).
Proof.
  intros Hne Hall. revert n. induction Hall as [|x l Hx Hall IH]; [done |].
  intros [|n] Hlen; simpl in Hlen; [lia |].
  destruct l as [|y l'].
  - simpl. by rewrite Hx by (by apply delimited_cons).
  - change (join_comma (List.map stringify (x :: y :: l')))
      with (stringify x +:+ "," +:+ join_comma (List.map stringify (y :: l'))).
    specialize (IH ltac:(done) n ltac:(simpl in *; lia)).
    remember (join_comma (List.map stringify (y :: l'))) as tail.
    normalize_app.
    rewrite Hx by (by apply delimited_cons). simpl.
    by rewrite IH.
Qed.

Lemma parse_members_join (ps : list (string * value)) (n : nat) (rest : string) :
  ps ≠ [] → Forall (λ p, reads pv p.2) ps → length ps ≤ n →
  parse_members pv n (join_comma (List.map member_text ps) +:+ String "}" rest)
  = Some (ps, rest).
Proof.
  intros Hne Hall. revert n. induction Hall as [|[k v] ps Hv Hall IH]; [done |].
  intros [|n] Hlen; simpl in Hlen; [lia |].
  destruct ps as [|q ps'].
  - simpl. unfold member_text. normalize_app.
    rewrite parse_chars_escape. simpl.
    rewrite Hv by (by apply delimited_cons). done.
  - change (join_comma (List.map member_text ((k, v) :: q :: ps')))
      with (member_text (k, v) +:+ "," +:+ join_comma (List.map member_text (q :: ps'))).
    specialize (IH ltac:(done) n ltac:(simpl in *; lia)).
    remember (join_comma (List.map member_text (q :: ps'))) as tail.
    unfold member_text. normalize_app.
    rewrite parse_chars_escape. simpl.
    rewrite Hv by (by apply delimited_cons). simpl.
    by rewrite IH.
Qed.
End elements.

Lemma parse_value_number (fuel : nat) (c : ascii) (r : string) :
  number_head c →
  parse_value (S fuel) (String c r)
  = '(n, rest) ← parse_number (String c r); Some (Num n, rest).
Proof.
  intros (Hws & H34 & H91 & _ & H123 & _ & H116 & H102 & H110)%number_head_dispatch.
  simpl. by rewrite Hws, H34, H91, H123, H116, H102, H110.
Qed.

Lemma parse_value_array (fuel : nat) (c : ascii) (r : string) :
  is_ws c = false → byte_is c 93 = false →
  parse_value (S fuel) (String "[" (String c r))
  = '(vs, rest) ← parse_elements (parse_value fuel) fuel (String c r);
    Some (Arr vs, rest).
Proof. intros Hws Hc. simpl. by rewrite Hws, Hc. Qed.

Lemma parse_value_object (fuel : nat) (r : string) :
  parse_value (S fuel) (String "{" (String dquote r))
  = '(ms, rest) ← parse_members (parse_value fuel) fuel (String dquote r);
    Some (Obj (build_object ms), rest).
Proof. done. Qed.

Lemma size_elem (x : value) (l : list value) :
  x ∈ l → S (size x) ≤ list_sum (List.map (λ x, S (size x)) l).
Proof.
  induction 1 as [x l | x y l _ IH]; simpl; lia.
Qed.

Lemma size_length {A} (f : A → nat) (l : list A) :
  length l ≤ list_sum (List.map (λ x, S (f x)) l).
Proof. induction l as [|x l IH]; simpl; lia. Qed.

(** Reading a serialized value back, with fuel for its size. *)
Lemma parse_value_stringify (v : value) :
  canonical v → ∀ fuel, size v ≤ fuel → reads (parse_value fuel) v.
Proof.
  induction v as [|b|z|s|l IH|ps IH] using value_ind; intros Hcan [|fuel] Hfuel rest Hrest;
    try (simpl in Hfuel; lia).
  - done.
  - by destruct b.
  - destruct (pretty_Z_head z) as (c & r & Hcr & Hc).
    pose proof (parse_number_pretty z rest Hrest) as Hnum.
    simpl stringify. rewrite Hcr in *.
    change (String c r +:+ rest) with (String c (r +:+ rest)) in *.
    by rewrite parse_value_number, Hnum.
  - destruct (parse_chars_quote s rest) as (tail & Htail & Hparse).
    simpl stringify. rewrite Htail. simpl. by rewrite Hparse.
  - inversion_clear Hcan as [| | | |? Hall|].
    destruct l as [|x l']; [done |].
    assert (Forall (reads (parse_value fuel)) (x :: l')) as Hreads.
    { apply Forall_forall. intros y Hy.
      rewrite Forall_forall in IH, Hall. apply IH; [done | by apply Hall |].
      pose proof (size_elem y _ Hy) as Hsize. simpl in Hfuel, Hsize. lia. }
    assert (length (x :: l') ≤ fuel) as Hlen.
    { pose proof (size_length size (x :: l')) as Hsize. simpl in Hfuel, Hsize |- *. lia. }
    pose proof (parse_elements_join (parse_value fuel) (x :: l') fuel rest ltac:(done) Hreads Hlen) as Hparse.
    destruct (stringify_head x) as (c & r & Hcr & Hws & Hc).
    change (stringify (Arr (x :: l')) +:+ rest)
      with (String "[" ((join_comma (List.map stringify (x :: l')) +:+ "]") +:+ rest)).
    rewrite app_assoc_s.
    change ("]" +:+ rest) with (String "]" rest).
    assert (∃ r', join_comma (List.map stringify (x :: l')) +:+ String "]" rest
                  = String c r') as [r' Hr'].
    { destruct l'; simpl; rewrite Hcr; simpl; eauto. }
    rewrite Hr' in *. by rewrite parse_value_array, Hparse.
  - inversion_clear Hcan as [| | | | |? Hbuild Hall].
    destruct ps as [|p ps']; [done |].
    assert (Forall (λ p, reads (parse_value fuel) p.2) (p :: ps')) as Hreads.
    { apply Forall_forall. intros q Hq.
      rewrite Forall_forall in IH, Hall. apply IH; [done | by apply Hall |].
      pose proof (size_elem q.2 (List.map snd (p :: ps'))) as Hsize.
      rewrite List.map_map in Hsize. simpl in Hfuel, Hsize.
      apply (list_elem_of_fmap_2 snd) in Hq. specialize (Hsize Hq). lia. }
    assert (length (p :: ps') ≤ fuel) as Hlen.
    { pose proof (size_length (λ p, size p.2) (p :: ps')) as Hsize. simpl in Hfuel, Hsize |- *. lia. }
    pose proof (parse_members_join (parse_value fuel) (p :: ps') fuel rest ltac:(done) Hreads Hlen) as Hparse.
    change (stringify (Obj (p :: ps')) +:+ rest)
      with (String "{" ((join_comma (List.map member_text (p :: ps')) +:+ "}") +:+ rest)).
    rewrite app_assoc_s.
    change ("}" +:+ rest) with (String "}" rest).
    assert (∃ r', join_comma (List.map member_text (p :: ps')) +:+ String "}" rest
                  = String dquote r') as [r' Hr'].
    { destruct ps'; simpl; eauto. }
    rewrite Hr' in *. rewrite parse_value_object, Hparse.
    change (Some (Obj (build_object (p :: ps')), rest) = Some (Obj (p :: ps'), rest)).
    by rewrite Hbuild.
Qed.

Lemma join_comma_length (l : list string) :
  list_sum (List.map (λ s, S (String.length s)) l) ≤ S (String.length (join_comma l)).
Proof.
  induction l as [|x l IH]; [simpl; lia |].
  destruct l as [|y l']; [simpl; lia |].
  change (join_comma (x :: y :: l')) with (x +:+ "," +:+ join_comma (y :: l')).
  rewrite !length_app_s. simpl in IH |- *. lia.
Qed.

Lemma list_sum_le {A} (f g : A → nat) (l : list A) :
  Forall (λ x, f x ≤ g x) l → list_sum (List.map f l) ≤ list_sum (List.map g l).
Proof. induction 1; simpl; lia. Qed.

Lemma size_le_length (v : value) : size v ≤ String.length (stringify v).
Proof.
  induction v as [|b|z|s|l IH|ps IH] using value_ind.
  - simpl; lia.
  - destruct b; simpl; lia.
  - destruct (pretty_Z_head z) as (c & r & Hcr & _). simpl. rewrite Hcr. simpl. lia.
  - simpl. lia.
  - change (stringify (Arr l)) with ("[" +:+ join_comma (List.map stringify l) +:+ "]").
    rewrite !length_app_s.
    pose proof (join_comma_length (List.map stringify l)) as Hjoin.
    rewrite List.map_map in Hjoin.
    pose proof (list_sum_le (λ x, S (size x)) (λ x, S (String.length (stringify x))) l) as Hle.
    assert (Forall (λ x, S (size x) ≤ S (String.length (stringify x))) l) as Hall.
    { eapply Forall_impl; [exact IH |]. simpl. lia. }
    specialize (Hle Hall). simpl in *. lia.
  - change (stringify (Obj ps)) with ("{" +:+ join_comma (List.map member_text ps) +:+ "}").
    rewrite !length_app_s.
    pose proof (join_comma_length (List.map member_text ps)) as Hjoin.
    rewrite List.map_map in Hjoin.
    pose proof (list_sum_le (λ p, S (size p.2)) (λ p, S (String.length (member_text p))) ps) as Hle.
    assert (Forall (λ p, S (size p.2) ≤ S (String.length (member_text p))) ps) as Hall.
    { eapply Forall_impl; [exact IH |]. intros [k v] Hv. unfold member_text.
      rewrite !length_app_s. simpl in *. lia. }
    specialize (Hle Hall). simpl in *. lia.
Qed.

(** [JSON.parse (JSON.stringify v)] is [v]. *)
Lemma parse_stringify (v : value) : canonical v → parse (stringify v) = Some v.
Proof.
  intros Hcan. unfold parse.
  pose proof (size_le_length v) as Hsize.
  pose proof (parse_value_stringify v Hcan (S (String.length (stringify v)))
                ltac:(lia) EmptyString I) as Hread. rewrite app_nil_r_s in Hread.
  by rewrite Hread.
Qed.

Lemma stringify_truthy (v : value) : truthy (stringify v) = true.
Proof. by destruct (stringify_head v) as (c & r & -> & _). Qed.

Lemma parse_empty : parse EmptyString = None.
Proof. done. Qed.

End JsonFacts.

(** ** The component, fact by fact *)

Module CommentPanelFacts.
Import Json CommentPanel.
Import JsonFacts.

Implicit Types (st : State) (c : Comment) (cs : list Comment).

(** *** Typed comment lists *)

Lemma canonical_to_value c : canonical (to_value c).
Proof.
  unfold to_value. destruct (relativeTime c); (constructor; [done | repeat constructor]).
Qed.

Lemma canonical_to_array cs : canonical (to_array cs).
Proof.
  constructor. apply Forall_forall. intros v (c & <- & _)%list_elem_of_In%in_map_iff.
  apply canonical_to_value.
Qed.

Lemma get_id c : Js.get (to_value c) "id" = Js.Normal (Some (Js.Str (id c))).
Proof. done. Qed.

Lemma get_datetime c : Js.get (to_value c) "datetime" = Js.Normal (Some (Js.Str (datetime c))).
Proof. done. Qed.

Lemma strict_ne_id c (commentId : string) :
  Js.strict_ne (Some (Js.Str (id c))) commentId = bool_decide (id c ≠ commentId).
Proof.
  simpl. destruct (String.eqb_spec (id c) commentId) as [Heq | Hne].
  - by rewrite bool_decide_eq_false_2 by (by intros ?).
  - by rewrite bool_decide_eq_true_2.
Qed.

Lemma other_than_typed (commentId : string) c :
  other_than commentId (to_value c) = Js.Normal (bool_decide (id c ≠ commentId)).
Proof. unfold other_than. by rewrite get_id, <- strict_ne_id. Qed.

(** The filter of [handleDelete] on a typed list. *)
Lemma filter_list_typed (commentId : string) cs :
  Js.filter_list (other_than commentId) (List.map to_value cs)
  = Js.Normal (List.map to_value (filter (λ c, id c ≠ commentId) cs)).
Proof.
  induction cs as [|c cs IH]; [done |].
  rewrite filter_cons. cbn [List.map Js.filter_list].
  rewrite other_than_typed, IH. cbn [mbind Js.completion_bind].
  by case_bool_decide; case_decide.
Qed.

Lemma with_relativeTime_typed (fromNow : option Js.value → string) c :
  with_relativeTime fromNow (to_value c) = Js.Normal (to_value (relabel fromNow c)).
Proof. unfold with_relativeTime, to_value. by destruct (relativeTime c). Qed.

(** The map of the timer on a typed list. *)
Lemma map_list_typed (fromNow : option Js.value → string) cs :
  Js.map_list (with_relativeTime fromNow) (List.map to_value cs)
  = Js.Normal (List.map to_value (List.map (relabel fromNow) cs)).
Proof.
  induction cs as [|c cs IH]; [done |].
  cbn [List.map Js.map_list]. by rewrite with_relativeTime_typed, IH.
Qed.

(** Loading what was just saved. *)
Lemma getStoredComments_insert (storage : gmap string string) (postId : string) (v : Js.value) :
  canonical v →
  getStoredComments (<[cache_key postId := stringify v]> storage) postId = Js.Normal v.
Proof.
  intros Hcan. unfold getStoredComments.
  by rewrite lookup_insert_eq, stringify_truthy, parse_stringify.
Qed.

Lemma getStoredComments_absent (storage : gmap string string) (postId : string) :
  storage !! cache_key postId = None → getStoredComments storage postId = Js.Normal (Js.Arr []).
Proof. intros Habsent. unfold getStoredComments. by rewrite Habsent. Qed.

Lemma getStoredComments_saved (storage : gmap string string) (postId : string) (v : Js.value) :
  canonical v → storage !! cache_key postId = Some (stringify v) →
  getStoredComments storage postId = Js.Normal v.
Proof.
  intros Hcan Hsaved. unfold getStoredComments.
  by rewrite Hsaved, stringify_truthy, parse_stringify.
Qed.

Lemma truthy_ne (s : string) : Js.truthy s = true ↔ s ≠ EmptyString.
Proof. by destruct s. Qed.

(** The synchronous part of [handleSubmit], by cases on the guards. *)
Lemma handleSubmit_begin_blank st :
  Js.trim (value st) = EmptyString → handleSubmit_begin st = (st, [], Returned).
Proof. intros Hblank. unfold handleSubmit_begin. by rewrite Hblank. Qed.

Lemma handleSubmit_begin_anonymous st :
  Js.trim (value st) ≠ EmptyString → userId st = EmptyString →
  handleSubmit_begin st = (st, [login_prompt], Returned).
Proof.
  intros Hdraft%truthy_ne Huser. unfold handleSubmit_begin. by rewrite Hdraft, Huser.
Qed.

Lemma handleSubmit_begin_sends st :
  Js.trim (value st) ≠ EmptyString → userId st ≠ EmptyString →
  handleSubmit_begin st
  = (set_submitting true st, [CreateComment (postId st) (value st) (token st)], Awaiting).
Proof.
  intros Hdraft%truthy_ne Huser%truthy_ne. unfold handleSubmit_begin.
  by rewrite Hdraft, Huser.
Qed.

(** The continuation of [handleSubmit], by cases on the outcome. *)
Lemma handleSubmit_resume_failure st (e : Js.exn) :
  handleSubmit_resume (Js.Throw e) st
  = (set_submitting false st,
     [ConsoleError "❌ 댓글 작성 실패:" e; Alert "댓글 작성 중 오류가 발생했습니다."]).
Proof. done. Qed.

Lemma handleSubmit_resume_success st (response : CreateResponse) (l : list Js.value) :
  comments st = Js.Arr l →
  let list := Js.Arr (newComment (authStore st) response :: l) in
  let key := cache_key (postId st) in
  handleSubmit_resume (Js.Normal response) st
  = (set_submitting false
       (set_value EmptyString
          (set_localStorage (<[key := stringify list]> (localStorage st))
             (set_comments list st))),
     [SetItem key (stringify list)]).
Proof. intros Hl. unfold handleSubmit_resume. by rewrite Hl. Qed.

Lemma handleSubmit_resume_flag (outcome : Js.completion CreateResponse) st :
  submitting (handleSubmit_resume outcome st).1 = false.
Proof. unfold handleSubmit_resume. by destruct (_ ≫= _) as [[??]|]. Qed.

(** The continuation of [handleDelete]. *)
Lemma handleDelete_resume_failure st (commentId : string) (e : Js.exn) :
  handleDelete_resume commentId (Js.Throw e) st
  = (st, [ConsoleError "❌ 댓글 삭제 실패:" e; Alert "댓글 삭제 중 오류가 발생했습니다."]).
Proof. done. Qed.

Lemma handleDelete_resume_success st (commentId : string) cs :
  comments st = to_array cs →
  let kept := to_array (filter (λ c, id c ≠ commentId) cs) in
  let key := cache_key (postId st) in
  handleDelete_resume commentId (Js.Normal ()) st
  = (set_localStorage (<[key := stringify kept]> (localStorage st)) (set_comments kept st),
     [SetItem key (stringify kept)]).
Proof.
  intros Hcs. unfold handleDelete_resume. rewrite Hcs. unfold to_array.
  cbn [mbind Js.completion_bind Js.array_filter]. by rewrite filter_list_typed.
Qed.

Lemma filter_all {A} (P : A → Prop) `{∀ x, Decision (P x)} (l : list A) :
  Forall P l → filter P l = l.
Proof.
  induction 1 as [|x l Hx _ IH]; [done |]. rewrite filter_cons.
  case_decide; [by rewrite IH | done].
Qed.

(** With unique ids, the filter takes out one comment and keeps the rest
    in place. *)
Lemma filter_unique_id cs (X : Comment) :
  NoDup (id <$> cs) → X ∈ cs →
  ∃ before after, cs = before ++ X :: after
                  ∧ filter (λ c, id c ≠ id X) cs = before ++ after.
Proof.
  intros Hnodup (before & after & ->)%list_elem_of_split.
  exists before, after. split; [done |].
  rewrite fmap_app, fmap_cons in Hnodup.
  apply NoDup_app in Hnodup as (_ & Hbefore & [Hafter _]%NoDup_cons).
  rewrite filter_app, filter_cons. case_decide; [done |].
  rewrite !filter_all; [done | |].
  - apply Forall_forall. intros c Hc Heq. apply Hafter.
    rewrite <- Heq. by apply list_elem_of_fmap_2.
  - apply Forall_forall. intros c Hc Heq. apply (Hbefore (id c)).
    + by apply list_elem_of_fmap_2.
    + rewrite Heq. left.
Qed.

(** *** The data model is kept *)

Lemma newComment_record (auth : AuthStore.t) (response : CreateResponse) :
  newComment auth response = to_value (new_record auth response).
Proof. done. Qed.

Lemma well_cached_insert (storage : gmap string string) (postId : string) cs :
  well_cached storage →
  well_cached (<[cache_key postId := stringify (to_array cs)]> storage).
Proof.
  intros Hcache p text. rewrite lookup_insert. case_decide.
  - intros [= <-]. by exists cs.
  - apply Hcache.
Qed.

Lemma well_cached_load (storage : gmap string string) (postId : string) :
  well_cached storage →
  ∃ cs, getStoredComments storage postId = Js.Normal (to_array cs)
        ∧ match storage !! cache_key postId with
          | Some text => text = stringify (to_array cs)
          | None => cs = []
          end.
Proof.
  intros Hcache. destruct (storage !! cache_key postId) as [text|] eqn:Hsaved.
  - destruct (Hcache _ _ Hsaved) as [cs ->]. exists cs. split; [|done].
    by apply getStoredComments_saved; [apply canonical_to_array |].
  - exists []. split; [by apply getStoredComments_absent | done].
Qed.

Lemma well_formed_reload st : well_formed st → well_formed (reload st).1.
Proof.
  intros [Hlist Hcache]. unfold reload.
  destruct (well_cached_load (localStorage st) (postId st) Hcache) as (cs & -> & _).
  split; [by exists cs | done].
Qed.

(** Every event keeps the data model. *)
Lemma well_formed_step (ev : event) st : well_formed st → well_formed (step ev st).1.
Proof.
  intros Hwf. pose proof Hwf as [[cs Hcs] Hcache].
  destruct ev as [text|auth| |outcome|commentId confirmed|commentId outcome
                 |fromNow|newPostId| ]; cbn [step].
  - done.
  - done.
  - unfold handleSubmit_begin. by repeat case_match.
  - destruct outcome as [response|e]; [|done].
    rewrite (handleSubmit_resume_success _ response (to_value <$> cs)) by done.
    split; cbn [fst comments localStorage set_submitting set_value set_localStorage
                set_comments].
    + by exists (new_record (authStore st) response :: cs).
    + by apply (well_cached_insert _ _ (new_record (authStore st) response :: cs)).
  - unfold handleDelete_begin. by destruct confirmed.
  - destruct outcome as [[]|e]; [|done].
    rewrite (handleDelete_resume_success _ _ cs) by done.
    split; cbn [fst comments localStorage set_localStorage set_comments].
    + by eexists.
    + by apply well_cached_insert.
  - unfold tick. rewrite Hcs. unfold to_array. cbn [Js.array_map].
    rewrite map_list_typed. split; [by eexists | done].
  - unfold change_postId, watch_postId.
    assert (well_formed (set_postId newPostId st)) as Hwf' by done.
    repeat case_match; try done; by apply well_formed_reload.
  - by apply well_formed_reload.
Qed.

Lemma well_formed_run (evs : list event) st : well_formed st → well_formed (run evs st).
Proof.
  revert st. induction evs as [|ev evs IH]; intros st Hwf; [done |].
  by apply IH, well_formed_step.
Qed.

(** The component starts in the data model when the cache is in it. *)
Lemma well_formed_setup (auth : AuthStore.t) (postId : string) (storage : gmap string string) :
  well_cached storage →
  ∃ st, setup auth postId storage = Js.Normal st ∧ well_formed st.
Proof.
  intros Hcache. unfold setup.
  destruct (well_cached_load storage postId Hcache) as (cs & -> & _).
  eexists. split; [done |]. split; [by exists cs | done].
Qed.

(** *** Sample runs *)

Example trim_sample : Js.trim "  hello world 	" = "hello world".
Proof. reflexivity. Qed.

Example trim_blank : Js.trim " 　 " = EmptyString.
Proof. reflexivity. Qed.

Example stringify_sample :
  stringify (to_array [comment_c1])
  = sq "[{'id':'c1','author':'Alice','avatar':'/images/user-dummy.png','content':'hello','datetime':'2024-01-01T00:00:00Z'}]".
Proof. reflexivity. Qed.

Example parse_sample :
  parse (sq " [ {'b':1, '0':2, 'b':3}, 'a\n\u0041', -7, true, null ] ")
  = Some (Js.Arr [Js.Obj [("0", Js.Num 2); ("b", Js.Num 3)];
                  Js.Str (String "a" (String (ascii_of_N 10) "A"));
                  Js.Num (-7); Js.Bool true; Js.Null]).
Proof. reflexivity. Qed.

Example parse_trailing_comma : parse "[1,]" = None.
Proof. reflexivity. Qed.

(** An entry holding the empty string counts as no entry. *)
Example load_empty_text :
  getStoredComments {[ cache_key "42" := EmptyString ]} "42" = Js.Normal (Js.Arr []).
Proof. reflexivity. Qed.

(** Alice sends [hello] on post 42: one request, one cache write. *)
Example submit_sample :
  (handleSubmit (create_ok created_c1) alice_on_42).2
  = [CreateComment "42" "hello" "t1";
     SetItem "comments_42" (stringify (to_array [comment_c1]))].
Proof. reflexivity. Qed.

(** A list that is not an array has no [unshift]: the error is caught
    like a failed request. *)
Example submit_on_object :
  (handleSubmit (create_ok created_c1) (set_comments (Js.Obj []) alice_on_42)).2
  = [CreateComment "42" "hello" "t1";
     ConsoleError "❌ 댓글 작성 실패:" Js.TypeError;
     Alert "댓글 작성 중 오류가 발생했습니다."].
Proof. reflexivity. Qed.

(** A [null] among the comments stops the timer's callback. *)
Example tick_on_null :
  tick a_minute_ago (set_comments (Js.Arr [Js.Null]) alice_on_42)
  = (set_comments (Js.Arr [Js.Null]) alice_on_42, [Uncaught Js.TypeError]).
Proof. reflexivity. Qed.

(** ** The claims *)

(** C1.  With a draft that is not blank, a user id and a request that
    succeeds, [handleSubmit] puts exactly one new comment (the id, the
    content and the creation time of the response) in front of the list,
    stores the text of the whole new list under the key of the post, and
    empties the draft. *)
Theorem submit_prepends_saves_clears st createComment (response : CreateResponse)
    (l : list Js.value) :
  Js.trim (value st) ≠ EmptyString →
  userId st ≠ EmptyString →
  comments st = Js.Arr l →
  createComment (postId st) (value st) (token st) = Js.Normal response →
  let new := newComment (authStore st) response in
  let st' := (handleSubmit createComment st).1 in
  comments st' = Js.Arr (new :: l)
  ∧ Js.get new "id" = Js.Normal (Some (Js.Str (_id response)))
  ∧ Js.get new "content" = Js.Normal (Some (Js.Str (comment response)))
  ∧ Js.get new "datetime" = Js.Normal (Some (Js.Str (createdAt response)))
  ∧ localStorage st'
    = <[cache_key (postId st) := stringify (Js.Arr (new :: l))]> (localStorage st)
  ∧ postId st' = postId st
  ∧ value st' = EmptyString
  ∧ (handleSubmit createComment st).2
    = [CreateComment (postId st) (value st) (token st);
       SetItem (cache_key (postId st)) (stringify (Js.Arr (new :: l)))].
Proof.
  intros Hdraft Huser Hl Hok new st'. subst st'. unfold handleSubmit.
  rewrite handleSubmit_begin_sends by done.
  cbn [postId value token set_submitting]. rewrite Hok.
  rewrite (handleSubmit_resume_success _ response l) by done.
  by repeat split.
Qed.

(** The scenario of the specification: Alice sends [hello] on post 42. *)
Lemma submit_prepends_saves_clears_witness :
  Js.trim (value alice_on_42) ≠ EmptyString
  ∧ comments (handleSubmit (create_ok created_c1) alice_on_42).1 = to_array [comment_c1]
  ∧ localStorage (handleSubmit (create_ok created_c1) alice_on_42).1 !! "comments_42"
    = Some (stringify (to_array [comment_c1]))
  ∧ value (handleSubmit (create_ok created_c1) alice_on_42).1 = EmptyString.
Proof.
  split; [done |].
  destruct (submit_prepends_saves_clears alice_on_42 (create_ok created_c1) created_c1 [])
    as (Hlist & _ & _ & _ & Hcache & _ & Hdraft & _); [done..|].
  split; [exact Hlist |]. split; [| exact Hdraft].
  rewrite Hcache. apply lookup_insert_eq.
Defined.

(** C2.  Saving a list of comments and loading it again gives the same
    list, for every post id. *)
Theorem save_then_load st cs :
  comments st = to_array cs →
  getStoredComments (localStorage (saveCommentsToStorage st).1) (postId st)
  = Js.Normal (to_array cs).
Proof.
  intros Hcs. unfold saveCommentsToStorage. cbn [fst localStorage set_localStorage].
  rewrite Hcs. apply getStoredComments_insert, canonical_to_array.
Qed.

Lemma save_then_load_witness :
  getStoredComments (localStorage (saveCommentsToStorage two_comments).1) "42"
  = Js.Normal (to_array [comment_c2; comment_c1]).
Proof. exact (save_then_load two_comments [comment_c2; comment_c1] eq_refl). Defined.

(** C3, as stated: without a user id the login prompt is shown.  It is
    not when the draft is blank: the guard on the draft returns first. *)
Lemma blank_draft_no_login_prompt :
  userId visitor_on_42 = EmptyString
  ∧ (handleSubmit create_down visitor_on_42).2 = []
  ∧ login_prompt ∉ (handleSubmit create_down visitor_on_42).2.
Proof. split; [done |]. split; [done |]. by intros ?%elem_of_nil. Qed.

(** C3, amended.  Without a user id, [handleSubmit] changes nothing (the
    list and the cache stay) and sends no request; when the draft is not
    blank it shows the login prompt, whose button leads to [/login], and
    when the draft is blank it does nothing at all. *)
Theorem submit_without_identity st createComment :
  userId st = EmptyString →
  (handleSubmit createComment st).1 = st
  ∧ Forall (λ e, is_request e = false) (handleSubmit createComment st).2
  ∧ (Js.trim (value st) ≠ EmptyString →
     (handleSubmit createComment st).2 = [login_prompt])
  ∧ (Js.trim (value st) = EmptyString → (handleSubmit createComment st).2 = [])
  ∧ login_prompt_onOk = [RouterPush "/login"].
Proof.
  intros Huser. unfold handleSubmit.
  destruct (decide (Js.trim (value st) = EmptyString)) as [Hblank | Hdraft].
  - rewrite handleSubmit_begin_blank by done. by repeat split.
  - rewrite handleSubmit_begin_anonymous by done. repeat split; try done.
    by repeat constructor.
Qed.

Lemma submit_without_identity_witness :
  userId visitor_on_42 = EmptyString
  ∧ (handleSubmit create_down (set_value "hello" visitor_on_42)).2 = [login_prompt].
Proof.
  split; [done |].
  by apply (submit_without_identity (set_value "hello" visitor_on_42) create_down).
Defined.

(** C4.  When the request fails, [handleSubmit] leaves the list, the
    cache and the draft as they were, and [handleDelete] the list and the
    cache; each sends its request once, logs the error and shows the
    alert. *)
Theorem remote_failure_changes_nothing st (e : Js.exn) :
  (∀ createComment,
     Js.trim (value st) ≠ EmptyString → userId st ≠ EmptyString →
     createComment (postId st) (value st) (token st) = Js.Throw e →
     let st' := (handleSubmit createComment st).1 in
     comments st' = comments st ∧ localStorage st' = localStorage st
     ∧ value st' = value st
     ∧ (handleSubmit createComment st).2
       = [CreateComment (postId st) (value st) (token st);
          ConsoleError "❌ 댓글 작성 실패:" e;
          Alert "댓글 작성 중 오류가 발생했습니다."])
  ∧ (∀ deleteComment commentId,
       deleteComment commentId (token st) = Js.Throw e →
       handleDelete deleteComment commentId true st
       = (st, [Confirm delete_question; DeleteComment commentId (token st);
               ConsoleError "❌ 댓글 삭제 실패:" e;
               Alert "댓글 삭제 중 오류가 발생했습니다."])).
Proof.
  split.
  - intros createComment Hdraft Huser Hfail st'. subst st'. unfold handleSubmit.
    rewrite handleSubmit_begin_sends by done.
    cbn [postId value token set_submitting]. rewrite Hfail.
    by rewrite handleSubmit_resume_failure.
  - intros deleteComment commentId Hfail. unfold handleDelete, handleDelete_begin.
    cbn [negb]. by rewrite Hfail, handleDelete_resume_failure.
Qed.

Lemma remote_failure_changes_nothing_witness :
  comments (handleSubmit create_down alice_on_42).1 = comments alice_on_42
  ∧ value (handleSubmit create_down alice_on_42).1 = "hello"
  ∧ (handleDelete delete_down "c1" true two_comments).1 = two_comments.
Proof.
  destruct (remote_failure_changes_nothing alice_on_42 Js.RequestError) as [Hsubmit _].
  destruct (remote_failure_changes_nothing two_comments Js.RequestError) as [_ Hdelete].
  destruct (Hsubmit create_down) as (Hlist & _ & Hdraft & _); [done..|].
  split; [exact Hlist |]. split; [exact Hdraft |].
  by rewrite (Hdelete delete_down "c1").
Defined.

(** C5.  After a confirmed delete of a comment [X] of the list that the
    service accepts, [X] is neither in the list nor in what the cache
    holds for the post, and the comments with other ids are all kept, in
    their order; with unique ids the list is the old one without [X]. *)
Theorem delete_removes_and_keeps_order st deleteComment cs (X : Comment) :
  comments st = to_array cs →
  X ∈ cs →
  deleteComment (id X) (token st) = Js.Normal () →
  let st' := (handleDelete deleteComment (id X) true st).1 in
  let kept := filter (λ c, id c ≠ id X) cs in
  comments st' = to_array kept
  ∧ (X ∉ kept)
  ∧ kept `sublist_of` cs
  ∧ (∀ c, c ∈ cs → id c ≠ id X → c ∈ kept)
  ∧ (NoDup (id <$> cs) →
     ∃ before after, cs = before ++ X :: after ∧ kept = before ++ after)
  ∧ localStorage st' !! cache_key (postId st) = Some (stringify (to_array kept))
  ∧ getStoredComments (localStorage st') (postId st') = Js.Normal (to_array kept).
Proof.
  intros Hcs HX Hok st' kept. subst st'.
  unfold handleDelete, handleDelete_begin. cbn [negb]. rewrite Hok.
  rewrite (handleDelete_resume_success _ _ cs) by done.
  cbn [fst comments localStorage postId set_localStorage set_comments]. fold kept.
  split; [done |]. split; [|split; [|split; [|split; [|split]]]].
  - by intros [? _]%list_elem_of_filter.
  - apply sublist_filter.
  - intros c Hc Hid. by apply list_elem_of_filter.
  - intros Hnodup. by apply filter_unique_id.
  - apply lookup_insert_eq.
  - apply getStoredComments_insert, canonical_to_array.
Qed.

Lemma delete_removes_and_keeps_order_witness :
  comment_c1 ∈ [comment_c2; comment_c1]
  ∧ comments (handleDelete delete_ok "c1" true two_comments).1 = to_array [comment_c2]
  ∧ getStoredComments
      (localStorage (handleDelete delete_ok "c1" true two_comments).1) "42"
    = Js.Normal (to_array [comment_c2]).
Proof.
  assert (comment_c1 ∈ [comment_c2; comment_c1]) as Hin by (right; left).
  split; [exact Hin |].
  destruct (delete_removes_and_keeps_order two_comments delete_ok
              [comment_c2; comment_c1] comment_c1 eq_refl Hin eq_refl)
    as (Hlist & _ & _ & _ & _ & _ & Hload).
  split; [exact Hlist | exact Hload].
Defined.

(** C6.  Deleting an id that no comment of the list has leaves the list
    as it is, whatever the answer to the confirmation and whatever the
    service replies. *)
Theorem delete_unknown_id st deleteComment (commentId : string) (confirmed : bool) cs :
  comments st = to_array cs →
  commentId ∉ (id <$> cs) →
  comments (handleDelete deleteComment commentId confirmed st).1 = comments st.
Proof.
  intros Hcs Hid. unfold handleDelete, handleDelete_begin.
  destruct confirmed; [|done]. cbn [negb].
  destruct (deleteComment commentId (token st)) as [[]|e]; [|done].
  rewrite (handleDelete_resume_success _ _ cs) by done.
  cbn [fst comments set_localStorage set_comments]. rewrite Hcs. f_equal.
  apply filter_all, Forall_forall. intros c Hc Heq. apply Hid.
  rewrite <- Heq. by apply list_elem_of_fmap_2.
Qed.

Lemma delete_unknown_id_witness :
  ("c9" ∉ (id <$> [comment_c2; comment_c1]))
  ∧ comments (handleDelete delete_ok "c9" true two_comments).1
    = to_array [comment_c2; comment_c1].
Proof.
  assert ("c9" ∉ (id <$> [comment_c2; comment_c1])) as Hid.
  { intros [c [Heq Hc]]%list_elem_of_fmap.
    apply elem_of_cons in Hc as [-> | Hc]; [done |].
    apply elem_of_cons in Hc as [-> | Hc]; [done |].
    by apply elem_of_nil in Hc. }
  split; [exact Hid |].
  exact (delete_unknown_id two_comments delete_ok "c9" true
           [comment_c2; comment_c1] eq_refl Hid).
Defined.

(** C7.  When [postId] changes to a new id that is not empty, the list
    becomes what the cache holds under the new key: the empty list when
    there is no entry, the saved list when there is one; nothing of the
    list shown before is kept, and the cache is only read.  With a cache
    as the component writes it, one of the two is the case. *)
Theorem postId_change_shows_cache st (newPostId : string) :
  newPostId ≠ EmptyString →
  newPostId ≠ postId st →
  let st' := (change_postId newPostId st).1 in
  postId st' = newPostId
  ∧ localStorage st' = localStorage st
  ∧ (localStorage st !! cache_key newPostId = None → comments st' = Js.Arr [])
  ∧ (∀ cs, localStorage st !! cache_key newPostId = Some (stringify (to_array cs)) →
           comments st' = to_array cs)
  ∧ (well_cached (localStorage st) →
     ∃ cs, comments st' = to_array cs
           ∧ match localStorage st !! cache_key newPostId with
             | Some text => text = stringify (to_array cs)
             | None => cs = []
             end).
Proof.
  intros Hne%truthy_ne Hchange st'. subst st'. unfold change_postId.
  rewrite (proj2 (String.eqb_neq _ _) Hchange).
  unfold watch_postId. rewrite Hne. unfold reload.
  cbn [localStorage postId set_postId].
  split; [by destruct (getStoredComments _ _) |].
  split; [by destruct (getStoredComments _ _) |].
  split; [|split].
  - intros Habsent. by rewrite getStoredComments_absent.
  - intros cs Hsaved.
    by rewrite (getStoredComments_saved _ _ (to_array cs)) by (done || apply canonical_to_array).
  - intros Hcache.
    destruct (well_cached_load _ newPostId Hcache) as (cs & -> & Hcs). by exists cs.
Qed.

Lemma postId_change_shows_cache_witness :
  comments (change_postId "43" two_comments).1 = Js.Arr []
  ∧ comments (change_postId "42" (change_postId "43" two_comments).1).1
    = to_array [comment_c2; comment_c1].
Proof.
  split.
  - by apply (postId_change_shows_cache two_comments "43").
  - apply (postId_change_shows_cache (change_postId "43" two_comments).1 "42"); [done..|].
    by rewrite (proj1 (proj2 (postId_change_shows_cache two_comments "43"
                                ltac:(done) ltac:(done)))).
Defined.

(** C8.  [submitting] becomes true only when the draft is not blank and
    there is a user id: a call that stops at a guard returns the state
    untouched.  Once the request is out, the flag is false again when the
    handler ends, whatever the outcome. *)
Theorem submitting_flag st :
  (Js.trim (value st) = EmptyString ∨ userId st = EmptyString →
   ∃ effs, handleSubmit_begin st = (st, effs, Returned)
           ∧ ∀ createComment, (handleSubmit createComment st).1 = st)
  ∧ (Js.trim (value st) ≠ EmptyString → userId st ≠ EmptyString →
     ∃ st1 effs, handleSubmit_begin st = (st1, effs, Awaiting)
                 ∧ submitting st1 = true
                 ∧ ∀ createComment, submitting (handleSubmit createComment st).1 = false)
  ∧ (∀ outcome st1, submitting (handleSubmit_resume outcome st1).1 = false).
Proof.
  split; [|split].
  - intros Habort.
    destruct (decide (Js.trim (value st) = EmptyString)) as [Hblank | Hdraft].
    + exists []. unfold handleSubmit. by rewrite handleSubmit_begin_blank.
    + destruct Habort as [? | Huser]; [done |].
      exists [login_prompt]. unfold handleSubmit.
      by rewrite handleSubmit_begin_anonymous.
  - intros Hdraft Huser. eexists _, _. unfold handleSubmit.
    rewrite handleSubmit_begin_sends by done. split; [done |]. split; [done |].
    intros createComment.
    pose proof (handleSubmit_resume_flag
                  (createComment (postId (set_submitting true st))
                     (value (set_submitting true st)) (token (set_submitting true st)))
                  (set_submitting true st)) as Hflag.
    by destruct (handleSubmit_resume _ _).
  - intros outcome st1. apply handleSubmit_resume_flag.
Qed.

Lemma submitting_flag_witness :
  (handleSubmit create_down visitor_on_42).1 = visitor_on_42
  ∧ submitting (handleSubmit_begin alice_on_42).1.1 = true
  ∧ submitting (handleSubmit create_down alice_on_42).1 = false.
Proof.
  destruct (submitting_flag visitor_on_42) as ((_ & _ & Hsame) & _); [by left |].
  destruct (submitting_flag alice_on_42) as (_ & (st1 & effs & Hbegin & Hset & Hreset) & _);
    [done..|].
  split; [apply Hsame |]. split; [by rewrite Hbegin | apply Hreset].
Defined.

(** C9.  A tick of the timer, which runs every 60 seconds, gives each
    comment a new label and keeps its id, author, avatar, content and
    creation time; it sends no request and writes nothing to the cache. *)
Theorem tick_only_relabels (fromNow : option Js.value → string) st :
  refresh_interval = (60 * 1000)%Z
  ∧ localStorage (tick fromNow st).1 = localStorage st
  ∧ Forall (λ e, is_request e = false ∧ is_cache_write e = false) (tick fromNow st).2
  ∧ ∀ cs, comments st = to_array cs →
          comments (tick fromNow st).1 = to_array (relabel fromNow <$> cs)
          ∧ Forall2 same_stored cs (relabel fromNow <$> cs)
          ∧ (tick fromNow st).2 = [].
Proof.
  split; [done |]. unfold tick.
  split; [by destruct (Js.array_map _ _) |].
  split; [destruct (Js.array_map _ _); by repeat constructor |].
  intros cs ->. unfold to_array. cbn [Js.array_map].
  rewrite map_list_typed. split; [done |]. split; [|done].
  apply Forall2_fmap_r, Forall_Forall2_diag, Forall_forall.
  by intros c _.
Qed.

Lemma tick_only_relabels_witness :
  comments (tick a_minute_ago two_comments).1
  = to_array [relabel a_minute_ago comment_c2; relabel a_minute_ago comment_c1]
  ∧ localStorage (tick a_minute_ago two_comments).1 = localStorage two_comments.
Proof.
  destruct (tick_only_relabels a_minute_ago two_comments) as (_ & Hcache & _ & Htyped).
  split; [| exact Hcache].
  by destruct (Htyped [comment_c2; comment_c1] eq_refl) as [-> _].
Defined.

(** C10.  Whatever value the cached text parses to, a number and an
    object included, [getStoredComments] returns it and it becomes
    [comments] unchecked; and there is text for which [JSON.parse]
    fails, and then loading throws instead of giving a list. *)
Theorem load_does_not_validate :
  (∀ st (text : string) (v : Js.value),
     localStorage st !! cache_key (postId st) = Some text →
     parse text = Some v →
     getStoredComments (localStorage st) (postId st) = Js.Normal v
     ∧ comments (onMounted st).1 = v)
  ∧ parse "42" = Some (Js.Num 42)
  ∧ parse "{}" = Some (Js.Obj [])
  ∧ ∃ text, parse text = None
            ∧ ∀ st, localStorage st !! cache_key (postId st) = Some text →
                    getStoredComments (localStorage st) (postId st)
                    = Js.Throw Js.SyntaxError
                    ∧ onMounted st = (st, [Uncaught Js.SyntaxError]).
Proof.
  split; [|split; [done | split; [done |]]].
  - intros st text v Hsaved Hparse.
    assert (Js.truthy text = true) as Htext.
    { destruct text; [by rewrite parse_empty in Hparse | done]. }
    unfold onMounted, reload, getStoredComments. by rewrite Hsaved, Htext, Hparse.
  - exists "{". split; [done |]. intros st Hsaved.
    unfold onMounted, reload, getStoredComments. by rewrite Hsaved.
Qed.

Lemma load_does_not_validate_witness :
  comments (onMounted (set_localStorage {[ cache_key "42" := "42" ]} alice_on_42)).1
  = Js.Num 42.
Proof.
  destruct load_does_not_validate as [Hany _].
  apply (Hany (set_localStorage {[ cache_key "42" := "42" ]} alice_on_42) "42" (Js.Num 42));
    [apply lookup_singleton_eq | done].
Defined.

End CommentPanelFacts.

(** ** More about the component *)

Module CommentPanelMore.
Import Json CommentPanel Template Kinds JsonFacts CommentPanelFacts.

Implicit Types (st : State) (c : Comment) (cs : list Comment) (ev : event).

(** *** Helpers *)

Lemma cache_key_inj (p q : string) : cache_key p = cache_key q → p = q.
Proof. unfold cache_key. apply String.app_inj. Qed.

Lemma well_cached_empty : well_cached ∅.
Proof. intros p text Hp. by rewrite lookup_empty in Hp. Qed.

Lemma map_list_length (f : Js.value → Js.completion Js.value) (l l' : list Js.value) :
  Js.map_list f l = Js.Normal l' → length l' = length l.
Proof.
  revert l'. induction l as [|x l IH]; intros l'; cbn [Js.map_list].
  - by intros [= <-].
  - destruct (f x) as [y|]; [|done]. cbn [mbind Js.completion_bind].
    destruct (Js.map_list f l) as [r|]; [|done]. cbn [mbind Js.completion_bind].
    intros [= <-]. simpl. f_equal. by apply IH.
Qed.

(** What an event can do to the cache: nothing, or one entry put under
    the key of the post on the screen. *)
Lemma step_storage ev st :
  localStorage (step ev st).1 = localStorage st
  ∨ may_write ev = true
    ∧ ∃ text, localStorage (step ev st).1
              = <[cache_key (postId st) := text]> (localStorage st)
              ∧ (step ev st).2 = [SetItem (cache_key (postId st)) text].
Proof.
  destruct ev as [text|auth| |outcome|commentId confirmed|commentId outcome
                 |fromNow|newPostId| ]; cbn [step].
  - by left.
  - by left.
  - left. unfold handleSubmit_begin. by repeat case_match.
  - destruct outcome as [response|e]; [|by left].
    unfold handleSubmit_resume. cbn [mbind Js.completion_bind].
    destruct (Js.array_unshift _ _) as [list|e]; [|by left].
    right. split; [done |]. by eexists.
  - left. unfold handleDelete_begin. by destruct confirmed.
  - destruct outcome as [[]|e]; [|by left].
    unfold handleDelete_resume. cbn [mbind Js.completion_bind].
    destruct (Js.array_filter _ _) as [kept|e]; [|by left].
    right. split; [done |]. by eexists.
  - left. unfold tick. by destruct (Js.array_map _ _).
  - left. unfold change_postId, watch_postId, reload.
    by repeat case_match.
  - left. unfold onMounted, reload. by case_match.
Qed.

(** *** From setup on *)

(** X1.  Set up on a cache that holds only lists the component wrote,
    the component starts, and after any sequence of events the list is
    still a list of comment records and the cache still holds only such
    lists. *)
Theorem data_model_is_kept (auth : AuthStore.t) (postId : string)
    (storage : gmap string string) (evs : list event) :
  well_cached storage →
  ∃ st, setup auth postId storage = Js.Normal st ∧ well_formed (run evs st).
Proof.
  intros Hcache. destruct (well_formed_setup auth postId storage Hcache) as (st & Hst & Hwf).
  exists st. split; [done |]. by apply well_formed_run.
Qed.

Lemma data_model_is_kept_witness :
  ∃ st, setup alice "42" ∅ = Js.Normal st
        ∧ well_formed (run [Typed "hello"; SubmitClicked; TimerFired a_minute_ago;
                            CreateSettled (Js.Normal created_c1); PostIdPassed "43";
                            DeleteClicked "c1" true; DeleteSettled "c1" (Js.Normal ())] st).
Proof. apply data_model_is_kept, well_cached_empty. Defined.



(** *** What the events never do *)

(** X3.  An event sends at most one request, and only a click on submit
    or a confirmed delete can send one; only a request that the service
    accepted writes the cache, and every other event leaves the whole
    storage as it was. *)
Theorem requests_and_writes_have_one_origin ev st :
  (Exists (λ e, is_request e = true) (step ev st).2 → may_request ev = true)
  ∧ length (filter (λ e, is_request e = true) (step ev st).2) ≤ 1
  ∧ (Exists (λ e, is_cache_write e = true) (step ev st).2 → may_write ev = true)
  ∧ (may_write ev = false → localStorage (step ev st).1 = localStorage st).
Proof.
  split; [|split; [|split]].
  - destruct ev as [text|auth| |outcome|commentId confirmed|commentId outcome
                   |fromNow|newPostId| ]; cbn [step may_request]; try done.
    + by intros ?%Exists_nil.
    + by intros ?%Exists_nil.
    + unfold handleSubmit_resume.
      destruct (_ ≫= _) as [[st1 effs]|e] eqn:Htried.
      * destruct outcome as [response|]; [|done]. cbn [mbind Js.completion_bind] in Htried.
        destruct (Js.array_unshift _ _); [|done].
        cbn [mbind Js.completion_bind saveCommentsToStorage] in Htried.
        injection Htried as <- <-. cbn [snd].
        intros [?|?%Exists_nil]%Exists_cons; done.
      * cbn [snd]. intros [?|[?|?%Exists_nil]%Exists_cons]%Exists_cons; done.
    + destruct confirmed; [done |]. cbn [handleDelete_begin negb fst snd].
      intros [?|?%Exists_nil]%Exists_cons; done.
    + unfold handleDelete_resume.
      destruct (_ ≫= _) as [[st1 effs]|e] eqn:Htried.
      * destruct outcome as [[]|]; [|done]. cbn [mbind Js.completion_bind] in Htried.
        destruct (Js.array_filter _ _); [|done].
        cbn [mbind Js.completion_bind saveCommentsToStorage] in Htried.
        injection Htried as <- <-. cbn [snd].
        intros [?|?%Exists_nil]%Exists_cons; done.
      * cbn [snd]. intros [?|[?|?%Exists_nil]%Exists_cons]%Exists_cons; done.
    + unfold tick. destruct (Js.array_map _ _); cbn [snd].
      * by intros ?%Exists_nil.
      * intros [?|?%Exists_nil]%Exists_cons; done.
    + unfold change_postId, watch_postId, reload.
      repeat case_match; cbn [snd]; try (by intros ?%Exists_nil);
        intros [?|?%Exists_nil]%Exists_cons; done.
    + unfold onMounted, reload. case_match; cbn [snd]; [by intros ?%Exists_nil |].
      intros [?|?%Exists_nil]%Exists_cons; done.
  - destruct ev as [text|auth| |outcome|commentId confirmed|commentId outcome
                   |fromNow|newPostId| ]; cbn [step]; try (simpl; lia).
    + unfold handleSubmit_begin. repeat case_match; simpl; lia.
    + unfold handleSubmit_resume.
      destruct (_ ≫= _) as [[st1 effs]|e] eqn:Htried; [|simpl; lia].
      destruct outcome as [response|]; [|done]. cbn [mbind Js.completion_bind] in Htried.
      destruct (Js.array_unshift _ _); [|done].
      cbn [mbind Js.completion_bind saveCommentsToStorage] in Htried.
      injection Htried as <- <-. simpl. lia.
    + unfold handleDelete_begin. destruct confirmed; simpl; lia.
    + unfold handleDelete_resume.
      destruct (_ ≫= _) as [[st1 effs]|e] eqn:Htried; [|simpl; lia].
      destruct outcome as [[]|]; [|done]. cbn [mbind Js.completion_bind] in Htried.
      destruct (Js.array_filter _ _); [|done].
      cbn [mbind Js.completion_bind saveCommentsToStorage] in Htried.
      injection Htried as <- <-. simpl. lia.
    + unfold tick. destruct (Js.array_map _ _); simpl; lia.
    + unfold change_postId, watch_postId, reload. repeat case_match; simpl; lia.
    + unfold onMounted, reload. case_match; simpl; lia.
  - destruct (step_storage ev st) as [Hsame | [Hwrite _]]; [|done].
    destruct ev as [text|auth| |outcome|commentId confirmed|commentId outcome
                   |fromNow|newPostId| ]; cbn [step may_write]; try done.
    + by intros ?%Exists_nil.
    + by intros ?%Exists_nil.
    + unfold handleSubmit_begin. repeat case_match; cbn [fst snd];
        try (by intros ?%Exists_nil); intros [?|?%Exists_nil]%Exists_cons; done.
    + destruct outcome as [response|e]; [done |]. cbn [handleSubmit_resume snd].
      intros [?|[?|?%Exists_nil]%Exists_cons]%Exists_cons; done.
    + unfold handleDelete_begin. destruct confirmed; cbn [negb fst snd].
      * intros [?|[?|?%Exists_nil]%Exists_cons]%Exists_cons; done.
      * intros [?|?%Exists_nil]%Exists_cons; done.
    + destruct outcome as [[]|e]; [done |]. cbn [handleDelete_resume snd].
      intros [?|[?|?%Exists_nil]%Exists_cons]%Exists_cons; done.
    + unfold tick. destruct (Js.array_map _ _); cbn [snd].
      * by intros ?%Exists_nil.
      * intros [?|?%Exists_nil]%Exists_cons; done.
    + unfold change_postId, watch_postId, reload.
      repeat case_match; cbn [snd]; try (by intros ?%Exists_nil);
        intros [?|?%Exists_nil]%Exists_cons; done.
    + unfold onMounted, reload. case_match; cbn [snd]; [by intros ?%Exists_nil |].
      intros [?|?%Exists_nil]%Exists_cons; done.
  - intros Hno. destruct (step_storage ev st) as [Hsame | [Hwrite _]]; [done |].
    by rewrite Hwrite in Hno.
Qed.

(** X4.  Whatever happens, the cache entries of the other posts stay as
    they are: an event writes at most the entry of the post that is on
    the screen when it runs. *)
Theorem other_posts_are_untouched ev st (other : string) :
  other ≠ postId st →
  localStorage (step ev st).1 !! cache_key other = localStorage st !! cache_key other.
Proof.
  intros Hother. destruct (step_storage ev st) as [-> | (_ & text & -> & _)]; [done |].
  apply lookup_insert_ne. by intros ?%cache_key_inj.
Qed.

Lemma other_posts_are_untouched_witness :
  localStorage (step (CreateSettled (Js.Normal created_c1))
                     (set_postId "43" two_comments)).1 !! cache_key "42"
  = Some (stringify (to_array [comment_c2; comment_c1])).
Proof.
  rewrite (other_posts_are_untouched (CreateSettled (Js.Normal created_c1))
             (set_postId "43" two_comments) "42") by done.
  apply lookup_singleton_eq.
Defined.


(** *** The list and the cache *)

Lemma shows_cache_reload st : well_formed st → shows_cache (reload st).1.
Proof.
  intros [_ Hcache]. unfold shows_cache, reload.
  destruct (well_cached_load (localStorage st) (postId st) Hcache) as (cs & Hload & _).
  by rewrite Hload.
Qed.

(** X5.  Right after a request that the service accepted, after
    mounting and after a change to a new post, the cache entry of the
    post reads as the list on the screen, so a component set up again on
    this storage starts with the same list. *)
Theorem list_and_cache_agree ev st :
  well_formed st →
  refreshes ev st = true →
  shows_cache (step ev st).1
  ∧ ∀ auth, ∃ st0, setup auth (postId (step ev st).1) (localStorage (step ev st).1)
                   = Js.Normal st0
                   ∧ comments st0 = comments (step ev st).1.
Proof.
  intros Hwf Hev.
  assert (shows_cache (step ev st).1) as Hshows.
  { pose proof Hwf as [[cs Hcs] Hcache].
    destruct ev as [text|auth| |outcome|commentId confirmed|commentId outcome
                   |fromNow|newPostId| ]; try done; cbn [step].
    - destruct outcome as [response|e]; [|done].
      rewrite (handleSubmit_resume_success _ response (to_value <$> cs)) by done.
      unfold shows_cache.
      cbn [fst comments localStorage postId set_submitting set_value set_localStorage
           set_comments].
      apply (getStoredComments_insert _ _
               (to_array (new_record (authStore st) response :: cs))),
        canonical_to_array.
    - destruct outcome as [[]|e]; [|done].
      rewrite (handleDelete_resume_success _ _ cs) by done.
      unfold shows_cache. cbn [fst comments localStorage postId set_localStorage set_comments].
      apply getStoredComments_insert, canonical_to_array.
    - cbn [refreshes] in Hev. apply andb_prop in Hev as [Htruthy Hnew%negb_true_iff].
      unfold change_postId, watch_postId. rewrite Hnew, Htruthy.
      by apply shows_cache_reload.
    - by apply shows_cache_reload. }
  split; [done |]. intros auth. unfold setup. rewrite Hshows.
  by eexists.
Qed.

Lemma list_and_cache_agree_witness :
  well_formed bob_on_42
  ∧ getStoredComments
      (localStorage (step (CreateSettled (Js.Normal created_c3)) bob_on_42).1) "42"
    = Js.Normal (comments (step (CreateSettled (Js.Normal created_c3)) bob_on_42).1).
Proof.
  assert (well_formed bob_on_42) as Hwf.
  { split; [by eexists |]. intros p text. unfold bob_on_42. cbn [localStorage].
    intros [Hkey <-]%lookup_singleton_Some. by eexists. }
  split; [exact Hwf |].
  by apply (list_and_cache_agree (CreateSettled (Js.Normal created_c3)) bob_on_42 Hwf).
Defined.

(** *** The timer *)





Lemma tick_typed (fromNow : option Js.value → string) st cs :
  comments st = to_array cs →
  tick fromNow st = (set_comments (to_array (relabel fromNow <$> cs)) st, []).
Proof.
  intros Hcs. unfold tick. rewrite Hcs. unfold to_array. cbn [Js.array_map].
  by rewrite map_list_typed.
Qed.

(** X7.  Labels do not pile up: a tick after another tick leaves the
    state that the later tick alone would leave, whatever the clock of
    the earlier one. *)
Theorem later_tick_wins (earlier later : option Js.value → string) st cs :
  comments st = to_array cs →
  tick later (tick earlier st).1 = tick later st.
Proof.
  intros Hcs. rewrite (tick_typed earlier st cs) by done. cbn [fst].
  rewrite (tick_typed later _ (relabel earlier <$> cs)) by done.
  rewrite (tick_typed later st cs) by done.
  by rewrite <- list_fmap_compose.
Qed.

Lemma later_tick_wins_witness :
  comments (tick a_minute_ago (tick (λ _, "방금 전") two_comments).1).1
  = to_array [relabel a_minute_ago comment_c2; relabel a_minute_ago comment_c1].
Proof.
  by rewrite (later_tick_wins (λ _, "방금 전") a_minute_ago two_comments
                [comment_c2; comment_c1] eq_refl).
Defined.

(** *** A list that is not one *)

Lemma filter_list_null (commentId : string) (l : list Js.value) :
  Js.Null ∈ l → Js.filter_list (other_than commentId) l = Js.Throw Js.TypeError.
Proof.
  intros Hnull. induction l as [|x l IH]; [by apply elem_of_nil in Hnull |].
  cbn [Js.filter_list]. apply elem_of_cons in Hnull as [<- | Hnull]; [done |].
  destruct (other_than commentId x) as [keep|e] eqn:Hx; cbn [mbind Js.completion_bind].
  - by rewrite IH.
  - destruct x; compute in Hx; by simplify_eq.
Qed.

(** X8.  When [comments] is not an array, a request that the service
    accepted is still reported as failed: nothing is put in the list,
    nothing is saved, the draft stays, and the user gets the error
    alert.  The same happens to a delete, also on an array with [null]
    in it. *)
Theorem accepted_request_on_a_broken_list st :
  ((∀ l, comments st ≠ Js.Arr l) →
   (∀ response,
      handleSubmit_resume (Js.Normal response) st
      = (set_submitting false st,
         [ConsoleError "❌ 댓글 작성 실패:" Js.TypeError;
          Alert "댓글 작성 중 오류가 발생했습니다."]))
   ∧ ∀ commentId,
       handleDelete_resume commentId (Js.Normal ()) st
       = (st, [ConsoleError "❌ 댓글 삭제 실패:" Js.TypeError;
               Alert "댓글 삭제 중 오류가 발생했습니다."]))
  ∧ (∀ l commentId,
       comments st = Js.Arr l → Js.Null ∈ l →
       handleDelete_resume commentId (Js.Normal ()) st
       = (st, [ConsoleError "❌ 댓글 삭제 실패:" Js.TypeError;
               Alert "댓글 삭제 중 오류가 발생했습니다."])).
Proof.
  split.
  - intros Hnot. unfold handleSubmit_resume, handleDelete_resume.
    destruct (comments st) as [|b|n|s|l|ps]; try done. by destruct (Hnot l).
  - intros l commentId Hl Hnull. unfold handleDelete_resume. rewrite Hl.
    cbn [mbind Js.completion_bind Js.array_filter].
    by rewrite filter_list_null.
Qed.

Lemma accepted_request_on_a_broken_list_witness :
  (handleSubmit_resume (Js.Normal created_c1) (set_comments (Js.Num 42) alice_on_42)).1
  = set_submitting false (set_comments (Js.Num 42) alice_on_42)
  ∧ (handleDelete_resume "c1" (Js.Normal ())
       (set_comments (Js.Arr [Js.Null]) alice_on_42)).1
    = set_comments (Js.Arr [Js.Null]) alice_on_42.
Proof.
  destruct (accepted_request_on_a_broken_list (set_comments (Js.Num 42) alice_on_42))
    as [Hbroken _].
  destruct (accepted_request_on_a_broken_list (set_comments (Js.Arr [Js.Null]) alice_on_42))
    as [_ Hnull].
  destruct Hbroken as [Hsubmit _]; [done |]. split.
  - by rewrite Hsubmit.
  - rewrite (Hnull [Js.Null] "c1" eq_refl); [done | left].
Defined.

(** *** What stays through the events *)

(** The refs that no event writes, and the flag outside [handleSubmit]. *)
Lemma step_frame ev st :
  userId (step ev st).1 = userId st
  ∧ token (step ev st).1 = token st
  ∧ (of_submit ev = false → submitting (step ev st).1 = submitting st).
Proof.
  destruct ev as [text|auth| |outcome|commentId confirmed|commentId outcome
                 |fromNow|newPostId| ]; cbn [step of_submit]; try done.
  - unfold handleSubmit_begin. by repeat case_match.
  - unfold handleSubmit_resume. destruct outcome as [response|e]; [|done].
    cbn [mbind Js.completion_bind]. by destruct (Js.array_unshift _ _).
  - unfold handleDelete_begin. by destruct confirmed.
  - unfold handleDelete_resume. destruct outcome as [[]|e]; [|done].
    cbn [mbind Js.completion_bind]. by destruct (Js.array_filter _ _).
  - unfold tick. by destruct (Js.array_map _ _).
  - unfold change_postId, watch_postId, reload. by repeat case_match.
  - unfold onMounted, reload. by case_match.
Qed.

(** X9.  The user id that the login guard tests and the token that the
    requests carry are the ones read at set-up: no event changes them,
    a change of the auth store included.  So a visitor who logs in
    while the component is mounted is still sent to the login prompt. *)
Theorem identity_is_read_once (evs : list event) st :
  userId (run evs st) = userId st
  ∧ token (run evs st) = token st
  ∧ ∀ auth, userId st = EmptyString →
            Js.trim (value (run evs st)) ≠ EmptyString →
            step SubmitClicked (step (AuthChanged auth) (run evs st)).1
            = (set_authStore auth (run evs st), [login_prompt]).
Proof.
  assert (userId (run evs st) = userId st ∧ token (run evs st) = token st) as [Huser Htoken].
  { revert st. induction evs as [|ev evs IH]; intros st; [done |]. cbn [run].
    destruct (IH (step ev st).1) as [-> ->]. by destruct (step_frame ev st) as (-> & -> & _). }
  split; [done |]. split; [done |].
  intros auth Hnobody Hdraft. cbn [step fst].
  by rewrite handleSubmit_begin_anonymous by (done || by rewrite <- Hnobody).
Qed.

Lemma identity_is_read_once_witness :
  (step SubmitClicked
     (step (AuthChanged alice) (run [Typed "hello"] visitor_on_42)).1).2
  = [login_prompt].
Proof.
  destruct (identity_is_read_once [Typed "hello"] visitor_on_42) as (_ & _ & Hstale).
  by rewrite (Hstale alice).
Defined.

(** X10.  Only [handleSubmit] touches [submitting]: through events that
    are neither a click on submit nor the end of a create request, the
    flag keeps its value, so it stays on for as long as the request
    does not settle. *)
Theorem flag_waits_for_the_request (evs : list event) st :
  Forall (λ ev, of_submit ev = false) evs →
  submitting (run evs st) = submitting st.
Proof.
  intros Hevs. revert st. induction Hevs as [|ev evs Hev _ IH]; intros st; [done |].
  cbn [run]. rewrite IH. by destruct (step_frame ev st) as (_ & _ & ->).
Qed.

Lemma flag_waits_for_the_request_witness :
  submitting (run [TimerFired a_minute_ago; PostIdPassed "43"; Typed "x"; Mounted;
                   DeleteClicked "c1" true; DeleteSettled "c1" (Js.Normal ())]
                  (step SubmitClicked alice_on_42).1) = true.
Proof.
  rewrite flag_waits_for_the_request; [done |]. by repeat constructor.
Defined.

(** *** Events between a click and its request's end *)

(** X11.  A comment belongs to the post on the screen when its request
    ends, not to the post it was sent for: if the post changes while the
    request is out, the new comment is put in front of the new post's
    cached list and saved under the new post's key, and the entry of the
    post it was written for is not touched. *)
Theorem comment_is_filed_under_the_shown_post st (response : CreateResponse)
    (newPostId : string) :
  well_cached (localStorage st) →
  Js.trim (value st) ≠ EmptyString →
  userId st ≠ EmptyString →
  newPostId ≠ EmptyString →
  newPostId ≠ postId st →
  let st' := run [SubmitClicked; PostIdPassed newPostId;
                  CreateSettled (Js.Normal response)] st in
  (step SubmitClicked st).2 = [CreateComment (postId st) (value st) (token st)]
  ∧ postId st' = newPostId
  ∧ (∃ cs, match localStorage st !! cache_key newPostId with
           | Some text => text = stringify (to_array cs)
           | None => cs = []
           end
           ∧ comments st' = to_array (new_record (authStore st) response :: cs)
           ∧ localStorage st' !! cache_key newPostId
             = Some (stringify (to_array (new_record (authStore st) response :: cs))))
  ∧ localStorage st' !! cache_key (postId st) = localStorage st !! cache_key (postId st).
Proof.
  intros Hcache Hdraft Huser Hne%truthy_ne Hchange st'. subst st'. cbn [run step].
  rewrite handleSubmit_begin_sends by done. cbn [fst snd].
  split; [done |].
  unfold change_postId. cbn [postId set_submitting].
  rewrite (proj2 (String.eqb_neq _ _) Hchange). unfold watch_postId. rewrite Hne.
  unfold reload. cbn [localStorage postId set_postId set_submitting].
  destruct (well_cached_load _ newPostId Hcache) as (cs & -> & Hcs). cbn [fst].
  rewrite (handleSubmit_resume_success _ response (to_value <$> cs)) by done.
  cbn [fst postId comments localStorage authStore set_submitting set_value
       set_localStorage set_comments set_postId].
  split; [done |]. split.
  - exists cs. split; [done |]. split; [done |]. apply lookup_insert_eq.
  - apply lookup_insert_ne. intros ?%cache_key_inj. done.
Qed.

Lemma comment_is_filed_under_the_shown_post_witness :
  comments (run [SubmitClicked; PostIdPassed "43"; CreateSettled (Js.Normal created_c3)]
                bob_on_42)
  = to_array [new_record bob created_c3]
  ∧ localStorage (run [SubmitClicked; PostIdPassed "43";
                       CreateSettled (Js.Normal created_c3)] bob_on_42)
    !! cache_key "42"
    = Some (stringify (to_array [comment_c2; comment_c1])).
Proof.
  assert (well_cached (localStorage bob_on_42)) as Hcache.
  { intros p text. unfold bob_on_42. cbn [localStorage].
    intros [Hkey <-]%lookup_singleton_Some. by eexists. }
  destruct (comment_is_filed_under_the_shown_post bob_on_42 created_c3 "43"
              Hcache ltac:(done) ltac:(done) ltac:(done) ltac:(done))
    as (_ & _ & (cs & Hcs & Hlist & _) & Hold).
  assert (localStorage bob_on_42 !! cache_key "43" = None) as Hnone.
  { apply lookup_singleton_None. by intros ?%cache_key_inj. }
  rewrite Hnone in Hcs. subst cs. split; [exact Hlist |].
  etrans; [exact Hold | apply lookup_singleton_eq].
Defined.

(** X12.  What is typed while the request is out is lost when the
    request succeeds (the draft is emptied, and the comment has the text
    of the click) and kept when it fails. *)
Theorem typing_while_the_request_is_out st (typed : string)
    (outcome : Js.completion CreateResponse) (l : list Js.value) :
  Js.trim (value st) ≠ EmptyString →
  userId st ≠ EmptyString →
  comments st = Js.Arr l →
  (step SubmitClicked st).2 = [CreateComment (postId st) (value st) (token st)]
  ∧ value (run [SubmitClicked; Typed typed; CreateSettled outcome] st)
    = match outcome with
      | Js.Normal _ => EmptyString
      | Js.Throw _ => typed
      end.
Proof.
  intros Hdraft Huser Hl. cbn [run step].
  rewrite handleSubmit_begin_sends by done. cbn [fst snd]. split; [done |].
  destruct outcome as [response|e]; [|done].
  by rewrite (handleSubmit_resume_success _ response l).
Qed.

Lemma typing_while_the_request_is_out_witness :
  value (run [SubmitClicked; Typed "one more thing";
              CreateSettled (Js.Normal created_c1)] alice_on_42) = EmptyString
  ∧ value (run [SubmitClicked; Typed "one more thing";
                CreateSettled (Js.Throw Js.RequestError)] alice_on_42)
    = "one more thing".
Proof.
  split.
  - by destruct (typing_while_the_request_is_out alice_on_42 "one more thing"
                   (Js.Normal created_c1) [] ltac:(done) ltac:(done) eq_refl) as [_ ->].
  - by destruct (typing_while_the_request_is_out alice_on_42 "one more thing"
                   (Js.Throw Js.RequestError) [] ltac:(done) ltac:(done) eq_refl)
      as [_ ->].
Defined.

(** *** Deleting *)

Lemma delete_accepted_state st (commentId : string) cs :
  comments st = to_array cs →
  (step (DeleteSettled commentId (Js.Normal ())) st).1
  = set_localStorage
      (<[cache_key (postId st)
         := stringify (to_array (filter (λ c, id c ≠ commentId) cs))]> (localStorage st))
      (set_comments (to_array (filter (λ c, id c ≠ commentId) cs)) st).
Proof. intros Hcs. cbn [step]. by rewrite (handleDelete_resume_success _ _ cs). Qed.

(** X13.  Accepted deletes can be done in any order, and doing one
    twice is doing it once: the list, the cache and the rest of the
    state come out the same. *)
Theorem deletes_commute st (a b : string) cs :
  comments st = to_array cs →
  run [DeleteSettled a (Js.Normal ()); DeleteSettled b (Js.Normal ())] st
  = run [DeleteSettled b (Js.Normal ()); DeleteSettled a (Js.Normal ())] st
  ∧ run [DeleteSettled a (Js.Normal ()); DeleteSettled a (Js.Normal ())] st
    = run [DeleteSettled a (Js.Normal ())] st.
Proof.
  intros Hcs. cbn [run].
  rewrite !(delete_accepted_state st _ cs) by done.
  rewrite !(delete_accepted_state _ a (filter (λ c, id c ≠ b) cs)) by done.
  rewrite !(delete_accepted_state _ a (filter (λ c, id c ≠ a) cs)) by done.
  rewrite !(delete_accepted_state _ b (filter (λ c, id c ≠ a) cs)) by done.
  unfold set_localStorage, set_comments. cbn [postId localStorage comments authStore
    userId token submitting value].
  rewrite !insert_insert_eq, !list_filter_filter.
  split.
  - by rewrite (list_filter_iff (λ c, id c ≠ b ∧ id c ≠ a) (λ c, id c ≠ a ∧ id c ≠ b))
      by (intros c; tauto).
  - by rewrite (list_filter_iff (λ c, id c ≠ a ∧ id c ≠ a) (λ c, id c ≠ a))
      by (intros c; tauto).
Qed.

Lemma deletes_commute_witness :
  comments (run [DeleteSettled "c1" (Js.Normal ()); DeleteSettled "c2" (Js.Normal ())]
                two_comments)
  = comments (run [DeleteSettled "c2" (Js.Normal ()); DeleteSettled "c1" (Js.Normal ())]
                  two_comments).
Proof.
  by destruct (deletes_commute two_comments "c1" "c2" [comment_c2; comment_c1] eq_refl)
    as [-> _].
Defined.

(** X14.  Deleting the comment that was just created, when its id is
    new to the list, gives back the list and the cache entry of before
    the creation. *)
Theorem delete_undoes_create st (response : CreateResponse) cs :
  comments st = to_array cs →
  _id response ∉ (id <$> cs) →
  let st' := run [CreateSettled (Js.Normal response);
                  DeleteSettled (_id response) (Js.Normal ())] st in
  comments st' = to_array cs
  ∧ localStorage st' !! cache_key (postId st) = Some (stringify (to_array cs))
  ∧ getStoredComments (localStorage st') (postId st') = Js.Normal (to_array cs).
Proof.
  intros Hcs Hfresh st'. subst st'. cbn [run step].
  rewrite (handleSubmit_resume_success _ response (to_value <$> cs)) by done. cbn [fst].
  rewrite (handleDelete_resume_success _ _ (new_record (authStore st) response :: cs))
    by done.
  cbn [fst postId comments localStorage set_submitting set_value set_localStorage
       set_comments].
  assert (filter (λ c, id c ≠ _id response) (new_record (authStore st) response :: cs) = cs)
    as ->.
  { rewrite filter_cons. cbn [id new_record]. case_decide; [done |].
    apply filter_all, Forall_forall. intros c Hc Heq. apply Hfresh.
    rewrite <- Heq. by apply list_elem_of_fmap_2. }
  split; [done |]. split; [apply lookup_insert_eq |].
  apply getStoredComments_insert, canonical_to_array.
Qed.

Lemma delete_undoes_create_witness :
  ("c3" ∉ (id <$> [comment_c2; comment_c1]))
  ∧ comments (run [CreateSettled (Js.Normal created_c3);
                   DeleteSettled "c3" (Js.Normal ())] bob_on_42)
    = to_array [comment_c2; comment_c1].
Proof.
  assert ("c3" ∉ (id <$> [comment_c2; comment_c1])) as Hfresh.
  { intros [c [Heq Hc]]%list_elem_of_fmap.
    apply elem_of_cons in Hc as [-> | Hc]; [done |].
    apply elem_of_cons in Hc as [-> | Hc]; [done |].
    by apply elem_of_nil in Hc. }
  split; [exact Hfresh |].
  by destruct (delete_undoes_create bob_on_42 created_c3 [comment_c2; comment_c1]
                 eq_refl Hfresh) as [Hlist _].
Defined.

(** *** Drafts and post ids at the edge *)

Lemma trimStart_spaces_only (s : string) :
  spaces_only s = true → Js.trimStart s = EmptyString.
Proof.
  induction s as [|c s IH]; [done |]. cbn [spaces_only Js.trimStart].
  intros [-> Hs]%andb_prop. by apply IH.
Qed.

(** X15.  A draft made of spaces, tabs and line breaks only is never
    sent: [handleSubmit] returns at once, with or without a user id,
    changing nothing and showing nothing. *)
Theorem blank_draft_is_not_sent st createComment :
  spaces_only (value st) = true →
  handleSubmit createComment st = (st, []).
Proof.
  intros Hblank. unfold handleSubmit.
  rewrite handleSubmit_begin_blank; [done |].
  unfold Js.trim. by rewrite trimStart_spaces_only.
Qed.

Lemma blank_draft_is_not_sent_witness :
  handleSubmit (create_ok created_c1) (set_value "  	 " alice_on_42)
  = (set_value "  	 " alice_on_42, []).
Proof. by apply blank_draft_is_not_sent. Defined.

(** X16.  The watcher does not reload for the empty post id: the list
    of the post shown before stays on the screen, a submit then asks
    the service for a comment on the empty id, and the old list with the
    new comment in front is saved under the key of the empty id. *)
Theorem empty_post_id_keeps_the_old_list st (response : CreateResponse) cs :
  comments st = to_array cs →
  Js.trim (value st) ≠ EmptyString →
  userId st ≠ EmptyString →
  step (PostIdPassed EmptyString) st = (set_postId EmptyString st, [])
  ∧ (step SubmitClicked (set_postId EmptyString st)).2
    = [CreateComment EmptyString (value st) (token st)]
  ∧ let st' := run [PostIdPassed EmptyString; SubmitClicked;
                    CreateSettled (Js.Normal response)] st in
    comments st' = to_array (new_record (authStore st) response :: cs)
    ∧ localStorage st' !! "comments_"
      = Some (stringify (to_array (new_record (authStore st) response :: cs))).
Proof.
  intros Hcs Hdraft Huser.
  assert (step (PostIdPassed EmptyString) st = (set_postId EmptyString st, [])) as Hpass.
  { cbn [step]. unfold change_postId. by case_match. }
  split; [done |]. cbn [run]. rewrite Hpass. cbn [step fst].
  rewrite handleSubmit_begin_sends by done. cbn [fst snd]. split; [done |].
  rewrite (handleSubmit_resume_success _ response (to_value <$> cs)) by done.
  cbn [fst postId comments localStorage authStore set_submitting set_value
       set_localStorage set_comments set_postId].
  split; [done |]. apply lookup_insert_eq.
Qed.

Lemma empty_post_id_keeps_the_old_list_witness :
  comments (run [PostIdPassed EmptyString; SubmitClicked;
                 CreateSettled (Js.Normal created_c3)] bob_on_42)
  = to_array [new_record bob created_c3; comment_c2; comment_c1].
Proof.
  by destruct (empty_post_id_keeps_the_old_list bob_on_42 created_c3
                 [comment_c2; comment_c1] eq_refl ltac:(done) ltac:(done))
    as (_ & _ & Hlist & _).
Defined.

(** *** The list on the screen *)

(** X17.  The delete icon goes by display name.  Its click hands over
    the id of its own item, and it is shown only to a viewer whose
    name is the author of the item.  So the author of a new comment gets
    the icon when the store has a name for him, and never when it has
    none: the comment is then signed with the default name, which no
    missing name equals. *)
Theorem delete_icon_goes_by_name (fromNow : option Js.value → string)
    (viewer : AuthStore.t) :
  (∀ item i, delete_icon (render_item fromNow viewer item) = Some i →
             i = id item ∧ AuthStore.fullName viewer = Some (author item))
  ∧ (∀ item, AuthStore.fullName viewer = Some (author item) →
             delete_icon (render_item fromNow viewer item) = Some (id item))
  ∧ (∀ response, is_Some (AuthStore.fullName viewer) →
                 delete_icon (render_item fromNow viewer (new_record viewer response))
                 = Some (_id response))
  ∧ (∀ response, AuthStore.fullName viewer = None →
                 delete_icon (render_item fromNow viewer (new_record viewer response))
                 = None).
Proof.
  unfold render_item, own. cbn [delete_icon].
  split; [|split; [|split]].
  - intros item i. destruct (AuthStore.fullName viewer) as [name|]; [|done].
    destruct (String.eqb_spec (author item) name) as [<- | ?]; [|done].
    by intros [= <-].
  - intros item ->. by rewrite String.eqb_refl.
  - intros response [name Hname]. rewrite Hname. cbn [author new_record].
    rewrite Hname. cbn [default]. by rewrite String.eqb_refl.
  - by intros response ->.
Qed.

Lemma delete_icon_goes_by_name_witness :
  delete_icon (render_item a_minute_ago alice (new_record alice created_c1)) = Some "c1"
  ∧ delete_icon (render_item a_minute_ago nobody (new_record nobody created_c1)) = None.
Proof.
  destruct (delete_icon_goes_by_name a_minute_ago alice) as (_ & _ & Hnamed & _).
  destruct (delete_icon_goes_by_name a_minute_ago nobody) as (_ & _ & _ & Hnameless).
  split; [by apply Hnamed | by apply Hnameless].
Defined.

(** X18.  The template computes the time it shows from [datetime] with
    its own clock and never reads [relativeTime]: after a tick the list
    renders as it did before, for every clock and viewer. *)
Theorem timer_label_is_not_shown (label clock : option Js.value → string)
    (viewer : AuthStore.t) st cs :
  comments st = to_array cs →
  ∃ cs', comments (tick label st).1 = to_array cs'
         ∧ render clock viewer cs' = render clock viewer cs.
Proof.
  intros Hcs. exists (relabel label <$> cs).
  rewrite (tick_typed label st cs) by done. split; [done |].
  destruct cs as [|c cs]; [done |]. unfold render. cbn [fmap list_fmap].
  f_equal. f_equal. rewrite <- list_fmap_compose. by apply list_fmap_ext.
Qed.

Lemma timer_label_is_not_shown_witness :
  ∃ cs', comments (tick a_minute_ago two_comments).1 = to_array cs'
         ∧ render (λ _, "방금 전") bob cs'
           = render (λ _, "방금 전") bob [comment_c2; comment_c1].
Proof. by apply timer_label_is_not_shown. Defined.

(** *** The storage *)

(** X19.  The component keeps to its own keys and never removes
    anything: through any sequence of events, an entry whose key is not
    the comments key of some post stays as it was, and an entry that is
    there stays there. *)
Theorem storage_is_only_added_to (evs : list event) st (key : string) :
  ((∀ postId, key ≠ cache_key postId) →
   localStorage (run evs st) !! key = localStorage st !! key)
  ∧ (is_Some (localStorage st !! key) → is_Some (localStorage (run evs st) !! key)).
Proof.
  revert st. induction evs as [|ev evs IH]; intros st; [done |]. cbn [run].
  destruct (IH (step ev st).1) as [IHother IHkept].
  destruct (step_storage ev st) as [Hsame | (_ & text & Hput & _)].
  - rewrite Hsame in IHother, IHkept. by split.
  - split.
    + intros Hother. rewrite IHother by done. rewrite Hput.
      by apply lookup_insert_ne.
    + intros Hthere. apply IHkept. rewrite Hput, lookup_insert.
      by case_decide.
Qed.

Lemma storage_is_only_added_to_witness :
  localStorage (run [CreateSettled (Js.Normal created_c3); PostIdPassed "43";
                     DeleteSettled "c2" (Js.Normal ())]
                    (set_localStorage (<["theme" := "dark"]> (localStorage bob_on_42))
                       bob_on_42)) !! "theme"
  = Some "dark".
Proof.
  destruct (storage_is_only_added_to
              [CreateSettled (Js.Normal created_c3); PostIdPassed "43";
               DeleteSettled "c2" (Js.Normal ())]
              (set_localStorage (<["theme" := "dark"]> (localStorage bob_on_42)) bob_on_42)
              "theme") as [Hother _].
  rewrite Hother; [apply lookup_insert_eq |]. by intros p.
Defined.

End CommentPanelMore.
